(** * InputAddress: option resolution, last-value memory and search

    A shallow embedding of the [InputAddress] component of the
    react-components package (the address selection control of the
    explorer UI): the helper
    functions [transformToAddress], [transformToAccountId], [createOption],
    [readOptions], [getLastValue], [setLastValue], [dedupe], and the methods
    of the [InputAddress] component that carry logic
    ([getDerivedStateFromProps], [render], [addActual], [getLastOptionValue],
    [hasValue], [getFiltered], [onChange], [onChangeMulti], [onSearch]).

    JavaScript values are modelled by small inductive types, thrown
    exceptions by an explicit [result] type, the browser store and the
    keyring registry by explicit state passing. *)

From Stdlib Require Import Ascii String.
From stdpp Require Import gmap strings list pretty.

Open Scope string_scope.
Open Scope list_scope.

(** ** JavaScript values *)

(** A primitive as the component handles it: [string | null | undefined]. *)
Inductive jsval :=
| JUndefined
| JNull
| JStr (s : string).

(** What may stand for an address: [string | Uint8Array | null | undefined]. *)
Inductive address_like :=
| Prim (v : jsval)
| Bytes (b : list Byte.byte).

Coercion Prim : jsval >-> address_like.

#[global] Instance byte_eq_dec : EqDecision Byte.byte := Byte.byte_eq_dec.

#[global] Instance jsval_eq_dec : EqDecision jsval.
Proof. solve_decision. Defined.

#[global] Instance address_like_eq_dec : EqDecision address_like.
Proof. solve_decision. Defined.

(** JavaScript truthiness of a primitive: [undefined], [null] and the
    empty string are falsy. *)
Definition truthy (v : jsval) : bool :=
  match v with
  | JUndefined | JNull => false
  | JStr s => negb (bool_decide (s = ""))
  end.

(** Every object is truthy, a [Uint8Array] included, even an empty one. *)
Definition truthy_like (v : address_like) : bool :=
  match v with
  | Prim p => truthy p
  | Bytes _ => true
  end.

(** [Array.prototype.join] with the separator [","]. *)
Fixpoint join_comma (l : list string) : string :=
  match l with
  | [] => ""
  | [x] => x
  | x :: l' => (x ++ "," ++ join_comma l')%string
  end.

(** [Uint8Array.prototype.toString]: the elements in decimal, joined by
    commas. *)
Definition bytes_toString (b : list Byte.byte) : string :=
  join_comma (map (fun x => pretty (Byte.to_N x)) b).

(** The string a truthy primitive is (the narrowing TypeScript applies
    after a truthiness test), which is also its [toString()]. *)
Definition as_string (v : jsval) : string :=
  match v with
  | JStr s => s
  | _ => ""
  end.

(** [test && test.toString()]: a falsy [test] is the result itself, a
    truthy one is turned into a string. *)
Definition and_toString (test : address_like) : jsval :=
  match test with
  | Prim v => if truthy v then JStr (as_string v) else v
  | Bytes b => JStr (bytes_toString b)
  end.

(** [value === address] on primitives. *)
Definition strict_eq (v a : jsval) : bool := bool_decide (v = a).

(** ** Thrown exceptions *)

Inductive exn :=
| TypeError
| Error (msg : string).

Inductive result (A : Type) :=
| Ok (a : A)
| Throw (e : exn).
Arguments Ok {A} a.
Arguments Throw {A} e.

#[global] Instance result_ret : MRet result := fun A a => Ok a.

#[global] Instance result_bind : MBind result := fun A B k r =>
  match r with
  | Ok a => k a
  | Throw e => Throw e
  end.

(** [try { body } catch (error) { handler }] *)
Definition try_catch {A} (body : result A) (handler : exn → result A) : result A :=
  match body with
  | Ok a => Ok a
  | Throw e => handler e
  end.

(** [array.map(f)] for an [f] that may throw: the first exception aborts. *)
Fixpoint mapM {A B} (f : A → result B) (l : list A) : result (list B) :=
  match l with
  | [] => Ok []
  | x :: l' => y ← f x; ys ← mapM f l'; Ok (y :: ys)
  end.

(** ** String primitives used by the search *)

(** White space removed by [String.prototype.trim], as far as it is ASCII:
    tab, line feed, vertical tab, form feed, carriage return, space. *)
Definition is_space (c : ascii) : bool :=
  let n := nat_of_ascii c in
  (n =? 9)%nat || (n =? 10)%nat || (n =? 11)%nat || (n =? 12)%nat || (n =? 13)%nat || (n =? 32)%nat.

Fixpoint trim_start (s : string) : string :=
  match s with
  | String c s' => if is_space c then trim_start s' else s
  | EmptyString => EmptyString
  end.

(** Drops the trailing white space: a character is kept when it is not
    white space or something is kept after it. *)
Fixpoint trim_end (s : string) : string :=
  match s with
  | String c s' =>
      match trim_end s' with
      | EmptyString => if is_space c then EmptyString else String c EmptyString
      | t => String c t
      end
  | EmptyString => EmptyString
  end.

Definition trim (s : string) : string := trim_end (trim_start s).

(** [String.prototype.toLowerCase] on the ASCII letters. *)
Definition lower_ascii (c : ascii) : ascii :=
  let n := nat_of_ascii c in
  if (65 <=? n)%nat && (n <=? 90)%nat then ascii_of_nat (n + 32) else c.

Fixpoint toLowerCase (s : string) : string :=
  match s with
  | String c s' => String (lower_ascii c) (toLowerCase s')
  | EmptyString => EmptyString
  end.

(** [s.includes(q)]: [q] occurs in [s] as a substring. *)
Fixpoint includes (s q : string) : bool :=
  String.prefix q s ||
  match s with
  | String _ s' => includes s' q
  | EmptyString => false
  end.

(** ** Options and type tags *)

(** A display name: a string, or something that is not a string (a
    rendered node), which has no [toLowerCase]. *)
Inductive label :=
| LText (s : string)
| LNode.

(** An entry of an option list, [KeyringSectionOption] / [Option]: a
    section header has the value [null].  The rendered [text] that
    [Option] adds is display only and is not modelled. *)
Record Option := mkOption {
  key : string;
  name : label;
  value : jsval
}.

#[global] Instance label_eq_dec : EqDecision label.
Proof. solve_decision. Defined.
#[global] Instance Option_eq_dec : EqDecision Option.
Proof. solve_decision. Defined.

(** Modelled from the spec: the type-tag enumeration [KeyringOption$Type]
    is declared in the keyring package, outside the sources at hand; the
    spec gives it as a string enum with the tags "all", "allPlus",
    "account", "address"; the remaining tags are the keyring's. *)
Inductive KeyringOption_Type :=
| Account | Address | All | AllPlus | Contract | Recent | Testing.

#[global] Instance KeyringOption_Type_eq_dec : EqDecision KeyringOption_Type.
Proof. solve_decision. Defined.

(** The property name a tag is used as in the persisted record. *)
Definition type_key (t : KeyringOption_Type) : string :=
  match t with
  | Account => "account"
  | Address => "address"
  | All => "all"
  | AllPlus => "allPlus"
  | Contract => "contract"
  | Recent => "recent"
  | Testing => "testing"
  end.

Definition DEFAULT_TYPE : KeyringOption_Type := All.

(** A parameter with a default value: [undefined] takes the default. *)
Definition or_default {A} (d : A) (o : option A) : A :=
  match o with
  | Some a => a
  | None => d
  end.

(** ** dedupe *)

(** [array.some((e, eindex) => p(e, eindex))], with the running index. *)
Fixpoint some_from {A} (p : A → nat → bool) (eindex : nat) (l : list A) : bool :=
  match l with
  | [] => false
  | e :: l' => p e eindex || some_from p (S eindex) l'
  end.

(** One step of the reduction in [dedupe]: [all] is the accumulator,
    [index] the position of [o] in the input. *)
Definition dedupe_step (acc : list Option * nat) (o : Option) : list Option * nat :=
  let '(all, index) := acc in
  let hasDupe :=
    some_from (fun e eindex => negb (eindex =? index)%nat && bool_decide (key e = key o)) 0 all in
  (if negb hasDupe then all ++ [o] else all, S index).

Definition dedupe (options : list Option) : list Option :=
  (fold_left dedupe_step options ([], 0%nat)).1.

(** The deduplication in the spec's words: one entry per key, the first
    occurrence, in order of first occurrence.  [seen] holds the keys
    already retained. *)
Fixpoint first_occurrences (seen : list string) (l : list Option) : list Option :=
  match l with
  | [] => []
  | o :: l' =>
      if bool_decide (key o ∈ seen) then first_occurrences seen l'
      else o :: first_occurrences (key o :: seen) l'
  end.

(** The first entry of [l] with key [k]. *)
Definition first_with_key (k : string) (l : list Option) : option Option :=
  List.find (fun o => bool_decide (key o = k)) l.

(** ** The persisted preference store *)

(** What the [defaults] property of the stored value evaluates to.  The
    cast in [readOptions] is unchecked, so the shape around the stored
    strings is whatever the store holds. *)
Inductive defaults_slot :=
| NoDefaults                          (* missing, [undefined] or [null] *)
| ScalarDefaults                      (* a boolean, a number or a string *)
| ArrayDefaults                       (* an array: named properties are not serialized *)
| DefaultsOf (m : gmap string string). (* an object: type tag ↦ address *)

(** A truthy value read from the store; only [defaults] is inspected. *)
Record options_obj := { defaults : defaults_slot }.

(** The content of the store under [STORAGE_KEY]: [None] when
    [store.get] yields a falsy value (nothing stored, [null], [false],
    [0], the empty string). *)
Definition store := option options_obj.

(** [store.get(STORAGE_KEY) || { defaults: {} }] *)
Definition readOptions (st : store) : options_obj :=
  match st with
  | Some stored => stored
  | None => {| defaults := DefaultsOf ∅ |}
  end.

(** [options.defaults[type]]: indexing [undefined] or [null] throws. *)
Definition getLastValue (type : option KeyringOption_Type) (st : store) : result (option string) :=
  let type := or_default DEFAULT_TYPE type in
  let options := readOptions st in
  match defaults options with
  | NoDefaults => Throw TypeError
  | ScalarDefaults | ArrayDefaults => Ok None
  | DefaultsOf m => Ok (m !! type_key type)
  end.

(** [options.defaults[type] = value; store.set(STORAGE_KEY, options)]:
    the assignment throws on [undefined] and [null], and (the module is
    in strict mode) on a primitive; a named property set on an array is
    lost when the store serializes it. *)
Definition setLastValue (type : option KeyringOption_Type) (value : string) (st : store) : result store :=
  let type := or_default DEFAULT_TYPE type in
  let options := readOptions st in
  match defaults options with
  | NoDefaults | ScalarDefaults => Throw TypeError
  | ArrayDefaults => Ok (Some options)
  | DefaultsOf m => Ok (Some {| defaults := DefaultsOf (<[type_key type := value]> m) |})
  end.

(** The stored value is as the cast in [readOptions] declares it:
    nothing, or a record whose [defaults] is a record of strings. *)
Definition well_typed (st : store) : Prop :=
  match st with
  | None => True
  | Some stored => ∃ m, defaults stored = DefaultsOf m
  end.

(** ** Collaborators *)

(** The meta data of a keyring entry, as far as [createOption] reads it. *)
Record KeyringMeta := {
  meta_name : option string;
  meta_isRecent : option bool
}.

(** What the component calls outside its own file: the address codec
    ([toAddress] of the package's utilities, which may throw, and
    [isAddress]), the keyring registry with its state, and the two item
    constructors. *)
Class Collaborators := {
  toAddress : address_like → result (option string);
  isAddress : string → bool;
  Keyring : Type;
  getAccount : Keyring → string → option KeyringMeta;
  getAddress : Keyring → string → option KeyringMeta;
  saveRecent : string → Keyring → Keyring * Option;
  createOptionItem : string → option string → Option;
  createItem : Option → option bool → Option   (* [isUppercase] is optional *)
}.

(** ** Props and state *)

Inductive value_prop :=
| OneValue (v : address_like)
| ManyValues (l : list string).

Inductive value_state :=
| NoValue
| OneAddress (s : string)
| ManyAddresses (l : list (option string)).

Module Props.
Record t := {
  defaultValue : address_like;
  filter : option (list string);
  isDisabled : option bool;
  isInput : option bool;
  isMultiple : bool;
  onChange : bool;        (* whether the caller supplied a handler *)
  onChangeMulti : bool;
  options : option (list Option);
  optionsAll : option (KeyringOption_Type → list Option);
  type : option KeyringOption_Type;
  value : value_prop;
  withExclude : option bool
}.
End Props.

Module State.
Record t := {
  lastValue : option string;
  value : value_state
}.
End State.

(** What [render] hands to the selection widget, as far as it is
    computed: [defaultValue], [options] and [value]. *)
Record Dropdown := {
  dd_defaultValue : jsval;
  dd_options : list Option;
  dd_value : value_state
}.

Inductive rendered :=
| Static_notice      (* "No accounts are available for selection." *)
| Dropdown_of (d : Dropdown).

Definition MULTI_DEFAULT : value_state := ManyAddresses [].

(** [isUndefined(value)] and [!value] on the tracked value: an array is
    truthy, a string is falsy when empty. *)
Definition is_undefined (v : value_state) : bool :=
  match v with
  | NoValue => true
  | OneAddress _ | ManyAddresses _ => false
  end.

Definition falsy_state (v : value_state) : bool :=
  match v with
  | NoValue => true
  | OneAddress s => bool_decide (s = "")
  | ManyAddresses _ => false
  end.

(** [string | undefined] as a primitive. *)
Definition of_optional (o : option string) : jsval :=
  match o with
  | Some s => JStr s
  | None => JUndefined
  end.

(** [filter.includes(value)] *)
Definition array_includes (f : list string) (v : jsval) : bool :=
  match v with
  | JStr s => bool_decide (s ∈ f)
  | _ => false
  end.

(** [array.filter((item, index) => p(item, index))], with the running index. *)
Fixpoint filter_from {A} (p : A → nat → bool) (index : nat) (l : list A) : list A :=
  match l with
  | [] => []
  | item :: l' =>
      if p item index then item :: filter_from p (S index) l'
      else filter_from p (S index) l'
  end.

Section Component.
Context `{Collaborators}.

Definition transformToAddress (value : address_like) : result jsval :=
  try_catch
    (r ← toAddress value;
     Ok (if truthy (of_optional r) then of_optional r else JNull))
    (fun error => Ok JNull).

Definition transformToAccountId (value : string) : result jsval :=
  if negb (truthy (JStr value)) then Ok JNull
  else
    accountId ← transformToAddress (JStr value);
    Ok (if negb (truthy accountId) then JNull else accountId).

Definition createOption (kr : Keyring) (address : string) : Option :=
  let pair := getAccount kr address in
  let '(name, isRecent) :=
    match pair with
    | Some meta => (meta_name meta, None)
    | None =>
        match getAddress kr address with
        | Some meta => (meta_name meta, meta_isRecent meta)
        | None => (None, Some true)
        end
    end in
  createItem (createOptionItem address name) (Some (negb (or_default false isRecent))).

(** *** The component's methods *)

Definition getFiltered (props : Props.t) : list Option :=
  let type := or_default DEFAULT_TYPE (Props.type props) in
  let withExclude := or_default false (Props.withExclude props) in
  match Props.optionsAll props with
  | None => []
  | Some optionsAll =>
      List.filter
        (fun o =>
           match Props.filter props with
           | None => true
           | Some filter =>
               truthy (value o) &&
               (if withExclude
                then negb (array_includes filter (value o))
                else array_includes filter (value o))
           end)
        (dedupe (optionsAll type))
  end.

Definition hasValue (props : Props.t) (test : address_like) : bool :=
  let address := and_toString test in
  existsb (fun o => strict_eq (value o) address) (getFiltered props).

Definition getLastOptionValue (props : Props.t) : option Option :=
  let available := getFiltered props in
  if negb (length available =? 0)%nat
  then available !! (length available - 1)%nat
  else None.

Definition addActual (props : Props.t) (kr : Keyring) (actualValue : string) : list Option :=
  let base := getFiltered props in
  if hasValue props (JStr actualValue)
  then base
  else base ++ [createOption kr actualValue].

Definition getDerivedStateFromProps (props : Props.t) (state : State.t) (st : store)
  : result (option State.t) :=
  try_catch
    (lastValue ←
       (if truthy (of_optional (State.lastValue state))
        then Ok (State.lastValue state)
        else getLastValue (Props.type props) st);
     value ←
       match Props.value props with
       | ManyValues l =>
           l' ← mapM (fun v => toAddress (JStr v)) l;
           Ok (ManyAddresses l')
       | OneValue v =>
           r ← toAddress v;
           Ok (if truthy (of_optional r) then OneAddress (as_string (of_optional r)) else NoValue)
       end;
     Ok (Some {| State.lastValue := lastValue; State.value := value |}))
    (fun error => Ok None).

(** The candidate handed to [transformToAddress] in [render]. *)
Definition candidate (props : Props.t) (state : State.t) : address_like :=
  let defaultValue := Props.defaultValue props in
  let isDisabled := or_default false (Props.isDisabled props) in
  let type := or_default DEFAULT_TYPE (Props.type props) in
  let lastValue := of_optional (State.lastValue state) in
  let lastOption := getLastOptionValue props in
  if isDisabled ||
     (truthy_like defaultValue && (hasValue props defaultValue || bool_decide (type = AllPlus)))
  then defaultValue
  else if hasValue props lastValue
       then Prim lastValue
       else Prim (match lastOption with
                  | Some o => value o
                  | None => JUndefined
                  end).

(** [hasOptions] in [render]. *)
Definition hasOptions (props : Props.t) : bool :=
  let type := or_default DEFAULT_TYPE (Props.type props) in
  match Props.options props with
  | Some options => negb (length options =? 0)%nat
  | None => false
  end ||
  match Props.optionsAll props with
  | Some optionsAll => negb (length (optionsAll type) =? 0)%nat
  | None => false
  end.

(** [actualOptions] in [render], given the active value. *)
Definition actualOptions (props : Props.t) (kr : Keyring) (actualValue : jsval) : list Option :=
  let isDisabled := or_default false (Props.isDisabled props) in
  match Props.options props with
  | Some options => dedupe (map (fun o => createItem o None) options)
  | None =>
      if isDisabled && truthy actualValue
      then [createOption kr (as_string actualValue)]
      else if truthy actualValue
           then addActual props kr (as_string actualValue)
           else getFiltered props
  end.

Definition render (props : Props.t) (state : State.t) (kr : Keyring) : result rendered :=
  let isDisabled := or_default false (Props.isDisabled props) in
  if negb (hasOptions props) && negb isDisabled then Ok Static_notice
  else
    let value := State.value state in
    actualValue ← transformToAddress (candidate props state);
    let _defaultValue :=
      if Props.isMultiple props || negb (is_undefined value)
      then JUndefined
      else actualValue in
    Ok (Dropdown_of
          {| dd_defaultValue := _defaultValue;
             dd_options := actualOptions props kr actualValue;
             dd_value :=
               if Props.isMultiple props && falsy_state value
               then MULTI_DEFAULT
               else value |}).

(** The handler of a single selection: the store after it, and what
    the caller's [onChange] was called with ([None]: no handler). *)
Definition onChange (props : Props.t) (st : store) (address : string)
  : result (store * option jsval) :=
  let type := Props.type props in
  st ← (match Props.filter props with
        | None => setLastValue type address st
        | Some _ => Ok st
        end);
  if Props.onChange props
  then
    reported ←
      (if truthy (JStr address) &&
          (hasValue props (JStr address) ||
           (bool_decide (type = Some AllPlus) && isAddress address))
       then transformToAccountId address
       else Ok JNull);
    Ok (st, Some reported)
  else Ok (st, None).

(** The handler of a multiple selection: what the caller's
    [onChangeMulti] was called with. *)
Definition onChangeMulti (props : Props.t) (addresses : list string)
  : result (option (list string)) :=
  if Props.onChangeMulti props
  then
    ids ← mapM transformToAccountId addresses;
    Ok (Some (map as_string (List.filter truthy ids)))
  else Ok None.

(** The matcher of [onSearch]. *)
Definition is_match (queryLower : string) (item : Option) : bool :=
  truthy (value item) &&
  (match name item with
   | LText n => includes (toLowerCase n) queryLower
   | LNode => false
   end ||
   includes (toLowerCase (as_string (value item))) queryLower).

(** The last filter of [onSearch]: an entry without a value is kept
    only when it is not the last one and the next one has a value. *)
Definition keep_entry (matches : list Option) (item : Option) (index : nat) : bool :=
  let isLast := (Z.of_nat index =? Z.of_nat (length matches) - 1)%Z in
  let hasNext :=
    match matches !! (index + 1)%nat with
    | Some nextItem => truthy (value nextItem)
    | None => false
    end in
  negb (bool_decide (value item = JNull) || bool_decide (value item = JUndefined)) ||
  (negb isLast && hasNext).

(** The first two steps of [onSearch]: the entries matching the query
    and, when there is none and input is allowed, the entry the keyring
    creates for the address typed in. *)
Definition search_matches (props : Props.t) (kr : Keyring) (filteredOptions : list Option)
    (_query : string) : result (Keyring * list Option) :=
  let isInput := or_default true (Props.isInput props) in
  let query := trim _query in
  let queryLower := toLowerCase query in
  let matches := List.filter (is_match queryLower) filteredOptions in
  if isInput && (length matches =? 0)%nat
  then
    accountId ← transformToAccountId query;
    if truthy accountId
    then
      let '(kr', option) := saveRecent (as_string accountId) kr in
      Ok (kr', matches ++ [option])
    else Ok (kr, matches)
  else Ok (kr, matches).

Definition onSearch (props : Props.t) (kr : Keyring) (filteredOptions : list Option)
    (_query : string) : result (Keyring * list Option) :=
  '(kr, matches) ← search_matches props kr filteredOptions _query;
  Ok (kr, filter_from (keep_entry matches) 0 matches).

(** *** Vocabulary of the statements *)

(** The canonical address of a value: what [toAddress] returns when it
    returns a non-empty string, [null] otherwise (also when it throws). *)
Definition canonical_of (v : address_like) : jsval :=
  match toAddress v with
  | Ok (Some s) => if bool_decide (s = "") then JNull else JStr s
  | Ok None | Throw _ => JNull
  end.

(** The canonical address of a string typed or selected. *)
Definition accountId_of (s : string) : jsval :=
  if bool_decide (s = "") then JNull else canonical_of (JStr s).

(** [v] is the value of an entry of the filtered bucket. *)
Definition present (props : Props.t) (v : jsval) : Prop :=
  ∃ o, o ∈ getFiltered props ∧ value o = v.

(** The raw [value] prop goes through the codec without an exception. *)
Definition value_resolves (props : Props.t) : Prop :=
  match Props.value props with
  | OneValue v => ∃ r, toAddress v = Ok r
  | ManyValues l => ∀ v, v ∈ l → ∃ r, toAddress (JStr v) = Ok r
  end.

(** The data model of an entry (spec, section 3): the key of a
    selectable entry is its address; the key of a section header is not
    an address the codec produces. *)
Definition keyed_by_address (o : Option) : Prop :=
  match value o with
  | JStr a => key o = a
  | JNull | JUndefined => ∀ v, toAddress v ≠ Ok (Some (key o))
  end.
End Component.

(** ** A sample registry and codec

    A concrete instance of the collaborators, to run the component on
    the inputs of the spec's end-to-end examples ("5A1", "5B1", "5C1"):
    an address is a non-empty string of ASCII letters and digits and is
    its own canonical form; any other non-empty string makes the codec
    throw; nothing ([null], [undefined], the empty string) and byte
    arrays are not resolved.  The registry keeps the saved addresses
    with their meta data. *)

Definition is_alnum (c : ascii) : bool :=
  let n := nat_of_ascii c in
  ((48 <=? n)%nat && (n <=? 57)%nat) ||
  ((65 <=? n)%nat && (n <=? 90)%nat) ||
  ((97 <=? n)%nat && (n <=? 122)%nat).

Fixpoint all_alnum (s : string) : bool :=
  match s with
  | String c s' => is_alnum c && all_alnum s'
  | EmptyString => true
  end.

Definition sample_toAddress (v : address_like) : result (option string) :=
  match v with
  | Prim (JStr s) =>
      if bool_decide (s = "") then Ok None
      else if all_alnum s then Ok (Some s)
      else Throw (Error "Invalid decoded address")
  | Prim _ => Ok None
  | Bytes _ => Ok None
  end.

Record sample_keyring := {
  accounts : gmap string KeyringMeta;
  addresses : gmap string KeyringMeta
}.

Definition sample_createOptionItem (address : string) (name : option string) : Option :=
  {| key := address; name := LText (or_default address name); value := JStr address |}.

Definition sample_saveRecent (address : string) (kr : sample_keyring) : sample_keyring * Option :=
  let kr' :=
    match addresses kr !! address with
    | Some _ => kr
    | None =>
        {| accounts := accounts kr;
           addresses := <[address := {| meta_name := None; meta_isRecent := Some true |}]> (addresses kr) |}
    end in
  (kr', sample_createOptionItem address
          (meta ← addresses kr' !! address; meta_name meta)).

#[local] Instance sample : Collaborators := {|
  toAddress := sample_toAddress;
  isAddress := fun s => negb (bool_decide (s = "")) && all_alnum s;
  Keyring := sample_keyring;
  getAccount := fun kr a => accounts kr !! a;
  getAddress := fun kr a => addresses kr !! a;
  saveRecent := sample_saveRecent;
  createOptionItem := sample_createOptionItem;
  createItem := fun o _ => o
|}.

Definition empty_keyring : sample_keyring := {| accounts := ∅; addresses := ∅ |}.

(** The bucket of the spec's end-to-end examples. *)
Definition alice : Option := {| key := "5A1"; name := LText "alice"; value := JStr "5A1" |}.
Definition bob : Option := {| key := "5B1"; name := LText "bob"; value := JStr "5B1" |}.
Definition accounts_header : Option :=
  {| key := "header-accounts"; name := LText "Accounts"; value := JNull |}.

Definition props_of (defaultValue : address_like) (filter : option (list string))
    (isDisabled : option bool) (type : option KeyringOption_Type)
    (bucket : list Option) (withExclude : option bool) : Props.t := {|
  Props.defaultValue := defaultValue;
  Props.filter := filter;
  Props.isDisabled := isDisabled;
  Props.isInput := None;
  Props.isMultiple := false;
  Props.onChange := true;
  Props.onChangeMulti := false;
  Props.options := None;
  Props.optionsAll := Some (fun _ => bucket);
  Props.type := type;
  Props.value := OneValue JUndefined;
  Props.withExclude := withExclude
|}.

(** No default value, no filter, the bucket [alice; bob]. *)
Definition sample_props : Props.t :=
  props_of JUndefined None None None [alice; bob] None.

(** The same with the filter [{ values: ["5B1"], mode: exclude }]. *)
Definition excluding_bob : Props.t :=
  props_of JUndefined (Some ["5B1"]) None None [alice; bob] (Some true).

(** Disabled, with the default value "5C1", which the bucket lacks. *)
Definition disabled_props : Props.t :=
  props_of (JStr "5C1") None (Some true) None [alice; bob] None.

(** A bucket with a section header, and a filter on "5A1". *)
Definition filtered_with_header : Props.t :=
  props_of JUndefined (Some ["5A1"]) None None [accounts_header; alice; bob] None.


(** A store that remembers "5B1" for the tag "all". *)
Definition remembers_bob : store :=
  Some {| defaults := DefaultsOf {[ "all" := "5B1" ]} |}.

(** A stored object without [defaults], such as [{}]. *)
Definition malformed_store : store := Some {| defaults := NoDefaults |}.

Definition fresh_state : State.t := {| State.lastValue := None; State.value := NoValue |}.

(** The filter [{ values: ["5B1"], mode: include }] on [alice; bob]. *)
Definition including_bob : Props.t :=
  props_of JUndefined (Some ["5B1"]) None None [alice; bob] None.

(** An empty filter array in exclude mode, on a bucket with a header. *)
Definition excluding_nothing : Props.t :=
  props_of JUndefined (Some []) None None [accounts_header; alice; bob] (Some true).

(** The default value "5C1" under the tag "allPlus". *)
Definition allPlus_default : Props.t :=
  props_of (JStr "5C1") None None (Some AllPlus) [alice; bob] None.

(** A multiple selection whose value prop has an entry the codec does
    not resolve. *)
Definition multiple_props : Props.t := {|
  Props.defaultValue := JUndefined;
  Props.filter := None;
  Props.isDisabled := None;
  Props.isInput := None;
  Props.isMultiple := true;
  Props.onChange := false;
  Props.onChangeMulti := true;
  Props.options := None;
  Props.optionsAll := Some (fun _ => [alice; bob]);
  Props.type := None;
  Props.value := ManyValues ["5A1"; ""; "5B1"];
  Props.withExclude := None
|}.

(** The value prop "5A1" over [alice; bob]. *)
Definition selected_alice : Props.t := {|
  Props.defaultValue := JUndefined;
  Props.filter := None;
  Props.isDisabled := None;
  Props.isInput := None;
  Props.isMultiple := false;
  Props.onChange := true;
  Props.onChangeMulti := false;
  Props.options := None;
  Props.optionsAll := Some (fun _ => [alice; bob]);
  Props.type := None;
  Props.value := OneValue (JStr "5A1");
  Props.withExclude := None
|}.

(** ** Vocabulary of the further properties *)

(** The deduplicated option sequence of the current type tag, before the
    filter step of [getFiltered]. *)
Definition deduped_bucket (props : Props.t) : list Option :=
  match Props.optionsAll props with
  | Some optionsAll => dedupe (optionsAll (or_default DEFAULT_TYPE (Props.type props)))
  | None => []
  end.

(** An entry has no value: [isNull(item.value) || isUndefined(item.value)]. *)
Definition is_header (o : Option) : bool :=
  bool_decide (value o = JNull) || bool_decide (value o = JUndefined).

(** The last filter of [onSearch] read as a recursion over the
    sequence: an entry without a value stays only when the entry right
    after it has a (truthy) value. *)
Fixpoint drop_orphans (l : list Option) : list Option :=
  match l with
  | [] => []
  | item :: l' =>
      let hasNext :=
        match l' with
        | nextItem :: _ => truthy (value nextItem)
        | [] => false
        end in
      if negb (is_header item) || hasNext
      then item :: drop_orphans l'
      else drop_orphans l'
  end.

(** * Properties *)

(** ** dedupe *)

Section Dedupe.
Implicit Types (l all : list Option) (seen : list string) (o : Option) (k : string).

(** Inside [dedupe] the index test never fires: the accumulator is no
    longer than the position reached in the input. *)
Lemma some_from_index_free k index all i :
  (i + length all ≤ index)%nat →
  some_from (fun e eindex => negb (eindex =? index)%nat && bool_decide (key e = k)) i all
  = existsb (fun e => bool_decide (key e = k)) all.
Proof.
  revert i; induction all as [|e all IH]; intros i Hle; simpl in *; [done|].
  rewrite IH by lia.
  replace (i =? index)%nat with false by (symmetry; apply Nat.eqb_neq; lia).
  done.
Qed.

Lemma existsb_key_elem_of k all :
  existsb (fun e => bool_decide (key e = k)) all = bool_decide (k ∈ key <$> all).
Proof.
  induction all as [|e all IH]; simpl; [done|].
  rewrite IH. apply eq_true_iff_eq.
  rewrite orb_true_iff, !bool_decide_eq_true, elem_of_cons. by intuition.
Qed.

Lemma first_occurrences_ext seen seen' l :
  (∀ k, k ∈ seen ↔ k ∈ seen') →
  first_occurrences seen l = first_occurrences seen' l.
Proof.
  revert seen seen'; induction l as [|o l IH]; intros seen seen' Hs; simpl; [done|].
  rewrite (bool_decide_ext _ _ (Hs (key o))).
  case_bool_decide; [by apply IH|].
  f_equal. apply IH. intros k. rewrite !elem_of_cons. by rewrite Hs.
Qed.

Lemma dedupe_fold l all index :
  (length all ≤ index)%nat →
  (fold_left dedupe_step l (all, index)).1 = all ++ first_occurrences (key <$> all) l.
Proof.
  revert all index; induction l as [|o l IH]; intros all index Hle; simpl.
  { by rewrite app_nil_r. }
  rewrite some_from_index_free by lia.
  rewrite existsb_key_elem_of.
  case_bool_decide as Hin; simpl.
  - by apply IH; lia.
  - rewrite IH by (rewrite length_app; simpl; lia).
    rewrite <- app_assoc. simpl. do 2 f_equal.
    apply first_occurrences_ext. intros k.
    rewrite fmap_app. set_solver.
Qed.

Lemma dedupe_first_occurrences l : dedupe l = first_occurrences [] l.
Proof. unfold dedupe. by rewrite dedupe_fold. Qed.

Lemma first_occurrences_keys seen l k :
  k ∈ key <$> first_occurrences seen l ↔ k ∉ seen ∧ k ∈ (key <$> l).
Proof.
  revert seen; induction l as [|o l IH]; intros seen; simpl.
  { rewrite elem_of_nil. naive_solver. }
  case_bool_decide as Hin; simpl.
  - rewrite IH, elem_of_cons. naive_solver.
  - rewrite !elem_of_cons, IH, elem_of_cons.
    destruct (decide (k = key o)); naive_solver.
Qed.

Lemma first_occurrences_NoDup seen l : NoDup (key <$> first_occurrences seen l).
Proof.
  revert seen; induction l as [|o l IH]; intros seen; simpl; [constructor|].
  case_bool_decide as Hin; simpl; [apply IH|].
  constructor; [|apply IH].
  rewrite first_occurrences_keys, elem_of_cons. naive_solver.
Qed.

Lemma first_occurrences_sublist seen l : sublist (first_occurrences seen l) l.
Proof.
  revert seen; induction l as [|o l IH]; intros seen; simpl; [constructor|].
  case_bool_decide; [apply sublist_cons | apply sublist_skip]; apply IH.
Qed.

Lemma first_occurrences_first seen l k :
  first_with_key k (first_occurrences seen l)
  = if bool_decide (k ∈ seen) then None else first_with_key k l.
Proof.
  unfold first_with_key.
  revert seen; induction l as [|o l IH]; intros seen; simpl.
  { by case_bool_decide. }
  case_bool_decide as Hin; simpl.
  - rewrite IH. repeat case_bool_decide; naive_solver.
  - rewrite IH. repeat case_bool_decide; set_solver.
Qed.

Lemma dedupe_NoDup l : NoDup (key <$> (dedupe l)).
Proof. rewrite dedupe_first_occurrences. apply first_occurrences_NoDup. Qed.

Lemma dedupe_sublist l : sublist (dedupe l) l.
Proof. rewrite dedupe_first_occurrences. apply first_occurrences_sublist. Qed.

Lemma dedupe_first l k : first_with_key k (dedupe l) = first_with_key k l.
Proof. rewrite dedupe_first_occurrences. apply first_occurrences_first. Qed.

Lemma sublist_keys_NoDup l l' :
  sublist l l' → NoDup (key <$> l') → NoDup (key <$> l).
Proof.
  intros Hsub Hnd. eapply sublist_NoDup; [exact Hnd|]. by apply fmap_sublist.
Qed.

Lemma filter_sublist (p : Option → bool) l : sublist (List.filter p l) l.
Proof.
  induction l as [|o l IH]; simpl; [constructor|].
  destruct (p o); [by apply sublist_skip | by apply sublist_cons].
Qed.
End Dedupe.

(** ** Canonicalization never throws *)

Section Canonicalization.
Context `{Collaborators}.

Lemma truthy_JStr s : truthy (JStr s) = negb (bool_decide (s = "")).
Proof. done. Qed.

Lemma truthy_is_string v : truthy v = true → ∃ s, v = JStr s ∧ s ≠ "".
Proof.
  destruct v as [| |s]; simpl; try done.
  case_bool_decide; [done|]. by exists s.
Qed.

Lemma transformToAddress_Ok v : transformToAddress v = Ok (canonical_of v).
Proof.
  unfold transformToAddress, canonical_of.
  destruct (toAddress v) as [[s|]|e]; simpl; try done.
  by case_bool_decide.
Qed.

Lemma canonical_of_cases v :
  canonical_of v = JNull ∨ ∃ s, canonical_of v = JStr s ∧ s ≠ "" ∧ toAddress v = Ok (Some s).
Proof.
  unfold canonical_of.
  destruct (toAddress v) as [[s|]|e]; auto.
  case_bool_decide; eauto.
Qed.

Lemma transformToAccountId_Ok s : transformToAccountId s = Ok (accountId_of s).
Proof.
  unfold transformToAccountId, accountId_of.
  rewrite truthy_JStr. case_bool_decide; simpl; [done|].
  rewrite transformToAddress_Ok. simpl.
  destruct (canonical_of_cases (JStr s)) as [->|(a & -> & Ha & _)]; simpl; [done|].
  by rewrite bool_decide_eq_false_2.
Qed.

Lemma accountId_of_cases s :
  accountId_of s = JNull ∨ ∃ a, accountId_of s = JStr a ∧ a ≠ "".
Proof.
  unfold accountId_of. case_bool_decide; [by left|].
  destruct (canonical_of_cases (JStr s)) as [->|(a & -> & Ha & _)]; eauto.
Qed.

Lemma mapM_transformToAccountId l :
  mapM transformToAccountId l = Ok (accountId_of <$> l).
Proof.
  induction l as [|s l IH]; simpl; [done|].
  rewrite transformToAccountId_Ok. simpl. by rewrite IH.
Qed.
End Canonicalization.

(** ** The filtered bucket *)

Section Filtered.
Context `{Collaborators}.

Lemma strict_eq_true v a : strict_eq v a = true ↔ v = a.
Proof. unfold strict_eq. apply bool_decide_eq_true. Qed.

Lemma hasValue_present props test :
  hasValue props test = true ↔ present props (and_toString test).
Proof.
  unfold hasValue, present. rewrite existsb_exists.
  split; intros (o & Ho & Hv); exists o.
  - by rewrite list_elem_of_In, <- strict_eq_true.
  - by rewrite <- list_elem_of_In, strict_eq_true.
Qed.

Lemma hasValue_absent props test :
  hasValue props test = false ↔ ¬ present props (and_toString test).
Proof. rewrite <- hasValue_present. by destruct (hasValue props test). Qed.

Lemma and_toString_prim v : and_toString (Prim v) = v.
Proof. destruct v as [| |s]; try done. unfold and_toString. by destruct (truthy _). Qed.

Lemma getLastOptionValue_last props : getLastOptionValue props = last (getFiltered props).
Proof.
  unfold getLastOptionValue. rewrite last_lookup.
  destruct (getFiltered props) as [|o l]; [done|].
  cbn [length Nat.eqb negb]. simpl. by rewrite Nat.sub_0_r.
Qed.

Lemma getFiltered_sublist props optionsAll :
  Props.optionsAll props = Some optionsAll →
  sublist (getFiltered props) (dedupe (optionsAll (or_default DEFAULT_TYPE (Props.type props)))).
Proof. intros Hall. unfold getFiltered. rewrite Hall. apply filter_sublist. Qed.

Lemma getFiltered_NoDup props : NoDup (key <$> getFiltered props).
Proof.
  destruct (Props.optionsAll props) as [optionsAll|] eqn:Hall.
  - eapply sublist_keys_NoDup; [by apply getFiltered_sublist|apply dedupe_NoDup].
  - unfold getFiltered. rewrite Hall. constructor.
Qed.
End Filtered.

(** ** The active value and the rendered options *)

Section Render.
Context `{Collaborators}.

Lemma render_Dropdown props state kr d :
  render props state kr = Ok (Dropdown_of d) →
  d = {| dd_defaultValue :=
           if Props.isMultiple props || negb (is_undefined (State.value state))
           then JUndefined
           else canonical_of (candidate props state);
         dd_options := actualOptions props kr (canonical_of (candidate props state));
         dd_value :=
           if Props.isMultiple props && falsy_state (State.value state)
           then MULTI_DEFAULT
           else State.value state |}.
Proof.
  unfold render. destruct (negb (hasOptions props) && _); [done|].
  rewrite transformToAddress_Ok. simpl. by intros [= <-].
Qed.


(** C1. On every update of the inputs the candidate for the active value
    is chosen in this order: the default value when the control is
    disabled, or when a default value is supplied (truthy) and it is
    present in the filtered bucket or the type tag is "allPlus";
    otherwise the last value when it is present in the filtered bucket;
    otherwise the value of the last entry of the filtered bucket
    ([undefined] when the bucket is empty).  The active value is the
    candidate put in canonical form, and it is what the selection widget
    gets as default value in single mode while no value is tracked:
    [render] does hand over a selection widget, with the options of that
    active value, whenever there are options or the control is disabled,
    and gives the notice (computing no active value) otherwise. *)
Theorem active_value_precedence (props : Props.t) (state : State.t) :
  let isDisabled := or_default false (Props.isDisabled props) in
  let type := or_default DEFAULT_TYPE (Props.type props) in
  let defaultValue := Props.defaultValue props in
  let lastValue := of_optional (State.lastValue state) in
  let use_default :=
    isDisabled = true ∨
    (truthy_like defaultValue = true ∧
     (present props (and_toString defaultValue) ∨ type = AllPlus)) in
  (use_default → candidate props state = defaultValue) ∧
  (¬ use_default → present props lastValue → candidate props state = Prim lastValue) ∧
  (¬ use_default → ¬ present props lastValue →
   candidate props state =
   Prim (match last (getFiltered props) with
         | Some o => value o
         | None => JUndefined
         end)) ∧
  transformToAddress (candidate props state) = Ok (canonical_of (candidate props state)) ∧
  (∀ kr d, render props state kr = Ok (Dropdown_of d) →
           Props.isMultiple props = false → State.value state = NoValue →
           dd_defaultValue d = canonical_of (candidate props state)) ∧
  (∀ kr, hasOptions props = true ∨ isDisabled = true →
         ∃ d, render props state kr = Ok (Dropdown_of d) ∧
              dd_options d = actualOptions props kr (canonical_of (candidate props state)) ∧
              (Props.isMultiple props = false → State.value state = NoValue →
               dd_defaultValue d = canonical_of (candidate props state))) ∧
  (∀ kr, hasOptions props = false → isDisabled = false →
         render props state kr = Ok Static_notice).
Proof.
  intros isDisabled type defaultValue lastValue use_default.
  assert (Hdec : (isDisabled ||
                  (truthy_like defaultValue &&
                   (hasValue props defaultValue || bool_decide (type = AllPlus)))) = true
                 ↔ use_default).
  { unfold use_default.
    rewrite orb_true_iff, andb_true_iff, orb_true_iff, bool_decide_eq_true.
    by rewrite hasValue_present. }
  assert (Hlast : hasValue props lastValue = true ↔ present props lastValue).
  { by rewrite hasValue_present, and_toString_prim. }
  assert (Hnot : ¬ use_default →
                 (isDisabled ||
                  (truthy_like defaultValue &&
                   (hasValue props defaultValue || bool_decide (type = AllPlus)))) = false).
  { intros Hn. apply not_true_is_false. by rewrite Hdec. }
  split; [|split; [|split; [|split; [|split; [|split]]]]].
  - intros Hu%Hdec. unfold candidate.
    fold isDisabled type defaultValue lastValue. by rewrite Hu.
  - intros Hn%Hnot Hp%Hlast. unfold candidate.
    fold isDisabled type defaultValue lastValue. by rewrite Hn, Hp.
  - intros Hn%Hnot Hp. unfold candidate.
    fold isDisabled type defaultValue lastValue.
    assert (Hl : hasValue props lastValue = false)
      by (apply not_true_is_false; by rewrite Hlast).
    by rewrite Hn, Hl, getLastOptionValue_last.
  - apply transformToAddress_Ok.
  - intros kr d Hr Hm Hv. apply render_Dropdown in Hr as ->. simpl.
    by rewrite Hm, Hv.
  - intros kr Hshown. unfold render. fold isDisabled.
    replace (negb (hasOptions props) && negb isDisabled) with false
      by (destruct Hshown as [-> | ->]; by rewrite ?andb_false_r).
    rewrite transformToAddress_Ok. simpl. eexists. split; [done|]. simpl.
    split; [done|]. by intros -> ->.
  - intros kr Hnone Hen. unfold render. fold isDisabled. by rewrite Hnone, Hen.
Qed.
End Render.

Section RenderedOptions.
Context `{Collaborators}.

Lemma getFiltered_from_bucket props o :
  o ∈ getFiltered props →
  ∃ optionsAll, Props.optionsAll props = Some optionsAll ∧
                o ∈ optionsAll (or_default DEFAULT_TYPE (Props.type props)).
Proof.
  intros Ho. destruct (Props.optionsAll props) as [optionsAll|] eqn:Hall.
  - exists optionsAll. split; [done|].
    eapply sublist_subseteq; [apply dedupe_sublist|].
    eapply sublist_subseteq; [by apply getFiltered_sublist|done].
  - unfold getFiltered in Ho. rewrite Hall in Ho. by apply elem_of_nil in Ho.
Qed.

Lemma createOption_key kr a :
  (∀ a n, key (createOptionItem a n) = a) →
  (∀ o u, key (createItem o u) = key o) →
  key (createOption kr a) = a.
Proof.
  intros Hitem Hcreate. unfold createOption.
  destruct (getAccount kr a); [|destruct (getAddress kr a)];
    by rewrite Hcreate, Hitem.
Qed.

Lemma actualOptions_NoDup props kr v :
  (∀ a n, key (createOptionItem a n) = a) →
  (∀ o u, key (createItem o u) = key o) →
  (∀ optionsAll o,
     Props.optionsAll props = Some optionsAll →
     o ∈ optionsAll (or_default DEFAULT_TYPE (Props.type props)) →
     keyed_by_address o) →
  NoDup (key <$> actualOptions props kr (canonical_of v)).
Proof.
  intros Hitem Hcreate Hmodel. unfold actualOptions.
  destruct (Props.options props) as [options|]; [apply dedupe_NoDup|].
  destruct (canonical_of_cases v) as [->|(a & -> & Ha & Hcanon)]; simpl.
  { rewrite andb_false_r. apply getFiltered_NoDup. }
  rewrite bool_decide_eq_false_2 by done. simpl. rewrite andb_true_r.
  destruct (or_default false (Props.isDisabled props)).
  { apply NoDup_singleton. }
  unfold addActual. destruct (hasValue props (JStr a)) eqn:Hhas.
  { apply getFiltered_NoDup. }
  rewrite fmap_app. apply NoDup_app. split; [apply getFiltered_NoDup|].
  split; [|apply NoDup_singleton].
  intros k Hk Hk'. apply list_elem_of_singleton in Hk'.
  rewrite createOption_key in Hk' by done. subst k.
  apply list_elem_of_fmap in Hk as (o & Hkey & Ho).
  apply hasValue_absent in Hhas. apply Hhas. exists o. split; [done|].
  destruct (getFiltered_from_bucket _ _ Ho) as (optionsAll & Hall & Hin).
  specialize (Hmodel _ _ Hall Hin). unfold keyed_by_address in Hmodel.
  rewrite and_toString_prim.
  destruct (value o) as [| |a'].
  - by destruct (Hmodel v); rewrite <- Hkey.
  - by destruct (Hmodel v); rewrite <- Hkey.
  - congruence.
Qed.

(** C3. For every option sequence, duplicate keys or not, [dedupe]
    retains exactly one entry per key, the first occurrence, and keeps
    the retained entries in their order: it computes the first
    occurrences, its keys are pairwise distinct, it is a subsequence of
    its input, and for every key the first entry with that key is the
    same before and after.  Consequently the option list handed to the
    selection widget has no two entries with the same key, for a bucket
    that follows the data model (an entry is keyed by its address). *)
Theorem dedupe_one_entry_per_key (options : list Option) :
  dedupe options = first_occurrences [] options ∧
  NoDup (key <$> dedupe options) ∧
  sublist (dedupe options) options ∧
  (∀ k, first_with_key k (dedupe options) = first_with_key k options) ∧
  (∀ k, k ∈ key <$> dedupe options ↔ k ∈ key <$> options) ∧
  (∀ props state kr d,
     Props.options props = Some options →
     render props state kr = Ok (Dropdown_of d) →
     NoDup (key <$> dd_options d)) ∧
  (∀ props state kr d,
     (∀ a n, key (createOptionItem a n) = a) →
     (∀ o u, key (createItem o u) = key o) →
     (∀ optionsAll o,
        Props.optionsAll props = Some optionsAll →
        o ∈ optionsAll (or_default DEFAULT_TYPE (Props.type props)) →
        keyed_by_address o) →
     render props state kr = Ok (Dropdown_of d) →
     NoDup (key <$> dd_options d)).
Proof.
  split; [apply dedupe_first_occurrences|].
  split; [apply dedupe_NoDup|].
  split; [apply dedupe_sublist|].
  split; [apply dedupe_first|].
  split.
  { intros k. rewrite dedupe_first_occurrences, first_occurrences_keys.
    rewrite elem_of_nil. naive_solver. }
  split.
  - intros props state kr d Hopts Hr. apply render_Dropdown in Hr as ->. simpl.
    unfold actualOptions. rewrite Hopts. apply dedupe_NoDup.
  - intros props state kr d Hitem Hcreate Hmodel Hr.
    apply render_Dropdown in Hr as ->. simpl.
    by apply actualOptions_NoDup.
Qed.
End RenderedOptions.

(** ** The filter step and the membership test *)

Section FilterStep.
Context `{Collaborators}.

Lemma array_includes_true filter v :
  array_includes filter v = true ↔ ∃ a, v = JStr a ∧ a ∈ filter.
Proof.
  destruct v as [| |a]; simpl; [naive_solver..|].
  rewrite bool_decide_eq_true. naive_solver.
Qed.

Lemma array_includes_false filter a :
  array_includes filter (JStr a) = false ↔ a ∉ filter.
Proof. simpl. by rewrite bool_decide_eq_false. Qed.

(** C4, as the code has it.  The filtered bucket is the deduplicated
    option sequence of the type tag, then filtered, the order kept:
    without a filter nothing is removed; with a filter an entry stays
    exactly when its value is a non-empty address that the filter
    includes (or, with [withExclude], does not include), so that every
    entry without a value (a section header) is removed.  The membership
    test matches an entry by its value, so that no header counts for a
    supplied (truthy) test value. *)
Theorem getFiltered_dedupes_then_filters (props : Props.t) :
  let type := or_default DEFAULT_TYPE (Props.type props) in
  let withExclude := or_default false (Props.withExclude props) in
  let bucket :=
    match Props.optionsAll props with
    | Some optionsAll => dedupe (optionsAll type)
    | None => []
    end in
  sublist (getFiltered props) bucket ∧
  (Props.filter props = None → getFiltered props = bucket) ∧
  (∀ filter o,
     Props.filter props = Some filter →
     (o ∈ getFiltered props ↔
      o ∈ bucket ∧
      ∃ a, value o = JStr a ∧ a ≠ "" ∧
           if withExclude then a ∉ filter else a ∈ filter)) ∧
  (∀ filter o,
     Props.filter props = Some filter →
     value o = JNull ∨ value o = JUndefined →
     o ∉ getFiltered props) ∧
  (∀ test, hasValue props test = true ↔
           ∃ o, o ∈ getFiltered props ∧ value o = and_toString test) ∧
  (∀ test o,
     truthy_like test = true →
     o ∈ getFiltered props → value o = and_toString test →
     value o ≠ JNull ∧ value o ≠ JUndefined).
Proof.
  intros type withExclude bucket.
  assert (Hmem : ∀ filter o,
            Props.filter props = Some filter →
            (o ∈ getFiltered props ↔
             o ∈ bucket ∧
             ∃ a, value o = JStr a ∧ a ≠ "" ∧
                  if withExclude then a ∉ filter else a ∈ filter)).
  { intros filter o Hf. unfold getFiltered, bucket. fold type withExclude.
    destruct (Props.optionsAll props) as [optionsAll|].
    2:{ rewrite elem_of_nil. naive_solver. }
    rewrite Hf, list_elem_of_In, filter_In, <- list_elem_of_In.
    apply and_iff_compat_l. rewrite andb_true_iff. split.
    - intros [Ht Hi]. apply truthy_is_string in Ht as (a & Ha & Hne).
      exists a. rewrite Ha in Hi. repeat split; [done..|].
      destruct withExclude.
      + apply negb_true_iff in Hi. by apply array_includes_false.
      + apply array_includes_true in Hi as (a' & [= <-] & Hi). done.
    - intros (a & Ha & Hne & Hi). rewrite Ha. split.
      + simpl. by rewrite bool_decide_eq_false_2.
      + destruct withExclude.
        * apply negb_true_iff. by apply array_includes_false.
        * apply array_includes_true. eauto. }
  split; [|split; [|split; [done|split; [|split]]]].
  - unfold getFiltered, bucket. fold type.
    destruct (Props.optionsAll props); [apply filter_sublist|constructor].
  - intros Hf. unfold getFiltered, bucket. fold type. rewrite Hf.
    destruct (Props.optionsAll props) as [optionsAll|]; [|done].
    clear. induction (dedupe (optionsAll type)) as [|o l IH]; simpl; [done|].
    by rewrite IH.
  - intros filter o Hf Hv Ho. apply (Hmem _ _ Hf) in Ho as (_ & a & Ha & _).
    destruct Hv; congruence.
  - intros test. apply hasValue_present.
  - intros test o Ht _ ->. destruct test as [[| |s]|b]; simpl in *; try done.
    by destruct (negb _).
Qed.
End FilterStep.

(** ** The persisted preference *)

Section Preference.
Implicit Types (st : store) (type : option KeyringOption_Type).

Lemma setLastValue_well_typed type a st :
  well_typed st →
  ∃ m, readOptions st = {| defaults := DefaultsOf m |} ∧
       setLastValue type a st
       = Ok (Some {| defaults := DefaultsOf (<[type_key (or_default DEFAULT_TYPE type) := a]> m) |}).
Proof.
  unfold setLastValue. destruct st as [[d]|]; simpl.
  - intros (m & ->). by exists m.
  - intros _. by exists ∅.
Qed.

Lemma type_key_inj : Inj (=) (=) type_key.
Proof. intros [] [] Heq; by try discriminate Heq. Qed.

Lemma set_then_get type a st st' :
  setLastValue type a st = Ok st' →
  well_typed st →
  getLastValue type st' = Ok (Some a) ∧ well_typed st'.
Proof.
  intros Hset Hwt.
  destruct (setLastValue_well_typed type a st Hwt) as (m & _ & Heq).
  rewrite Heq in Hset. injection Hset as <-.
  unfold getLastValue. simpl. rewrite lookup_insert_eq. split; [done|by eexists].
Qed.

End Preference.

(** ** Selection changes *)

Section Handlers.
Context `{Collaborators}.

(** What [onChange] reports upward for [address]. *)
Lemma onChange_eq props st address :
  onChange props st address =
  st' ← (match Props.filter props with
         | None => setLastValue (Props.type props) address st
         | Some _ => Ok st
         end);
  Ok (st',
      if Props.onChange props
      then Some (if truthy (JStr address) &&
                    (hasValue props (JStr address) ||
                     (bool_decide (Props.type props = Some AllPlus) && isAddress address))
                 then accountId_of address
                 else JNull)
      else None).
Proof.
  unfold onChange.
  destruct (match Props.filter props with None => _ | Some _ => _ end) as [st'|e];
    simpl; [|done].
  destruct (Props.onChange props); [|done].
  rewrite transformToAccountId_Ok.
  by destruct (_ && (hasValue props (JStr address) || _)).
Qed.

(** C2, as the code has it.  For every single selection of [addr], the
    stored preferences being as the cast in [readOptions] declares them
    (nothing, or a structure with a [defaults] record) whenever no
    filter prop is set: the last value of the current type tag is written exactly
    when no filter prop is set, the store being left as it is otherwise;
    then the caller's handler gets the canonical address when [addr] is
    not empty and is present in the filtered bucket, or the type tag is
    "allPlus" and [addr] is a valid address; it gets [null] in every
    other case, in particular for every [addr] absent from the filtered
    bucket under another type tag. *)
Theorem onChange_contract (props : Props.t) (st : store) (addr : string) :
  (Props.filter props = None → well_typed st) →
  ∃ st' reported,
    onChange props st addr = Ok (st', reported) ∧
    (Props.filter props = None →
     setLastValue (Props.type props) addr st = Ok st' ∧
     getLastValue (Props.type props) st' = Ok (Some addr)) ∧
    (∀ filter, Props.filter props = Some filter → st' = st) ∧
    (Props.onChange props = false → reported = None) ∧
    (Props.onChange props = true →
     (addr ≠ "" ∧
      (present props (JStr addr) ∨
       (Props.type props = Some AllPlus ∧ isAddress addr = true)) →
      reported = Some (canonical_of (JStr addr))) ∧
     (¬ (addr ≠ "" ∧
         (present props (JStr addr) ∨
          (Props.type props = Some AllPlus ∧ isAddress addr = true))) →
      reported = Some JNull) ∧
     (¬ present props (JStr addr) → Props.type props ≠ Some AllPlus →
      reported = Some JNull)).
Proof.
  intros Hwt. rewrite onChange_eq.
  set (cond := truthy (JStr addr) && _).
  assert (Hcond : cond = true ↔
            addr ≠ "" ∧
            (present props (JStr addr) ∨
             (Props.type props = Some AllPlus ∧ isAddress addr = true))).
  { unfold cond. rewrite andb_true_iff, orb_true_iff, andb_true_iff.
    rewrite bool_decide_eq_true, hasValue_present, and_toString_prim.
    rewrite truthy_JStr, negb_true_iff, bool_decide_eq_false. done. }
  assert (Hrep : ∃ reported,
            (if Props.onChange props
             then Some (if cond then accountId_of addr else JNull)
             else None) = reported ∧
            (Props.onChange props = false → reported = None) ∧
            (Props.onChange props = true →
             (addr ≠ "" ∧
              (present props (JStr addr) ∨
               (Props.type props = Some AllPlus ∧ isAddress addr = true)) →
              reported = Some (canonical_of (JStr addr))) ∧
             (¬ (addr ≠ "" ∧
                 (present props (JStr addr) ∨
                  (Props.type props = Some AllPlus ∧ isAddress addr = true))) →
              reported = Some JNull) ∧
             (¬ present props (JStr addr) → Props.type props ≠ Some AllPlus →
              reported = Some JNull))).
  { eexists. split; [done|].
    destruct (Props.onChange props); [|done].
    split; [done|]. intros _.
    destruct cond eqn:Hc.
    - destruct (proj1 Hcond eq_refl) as [Hne Hc'].
      unfold accountId_of. rewrite bool_decide_eq_false_2 by done.
      split; [done|]. split; [by intros []|].
      intros Hn Ht. destruct Hc' as [?|[? _]]; done.
    - assert (Hn : ¬ (addr ≠ "" ∧
                      (present props (JStr addr) ∨
                       (Props.type props = Some AllPlus ∧ isAddress addr = true))))
        by (intros Hx; by apply Hcond in Hx).
      done. }
  destruct (Props.filter props) as [filter|] eqn:Hf.
  - simpl. destruct Hrep as (reported & -> & Hr).
    exists st, reported. split; [done|]. split; [done|]. split; [done|]. done.
  - destruct (setLastValue_well_typed (Props.type props) addr st (Hwt eq_refl))
      as (m & _ & Hset).
    rewrite Hset. simpl.
    destruct Hrep as (reported & -> & Hr).
    eexists _, reported. split; [done|].
    split.
    { intros _. split; [done|]. by eapply set_then_get; [exact Hset|auto]. }
    split; [done|]. done.
Qed.

(** *** Deriving the state *)


Lemma mapM_Ok {A B} (f : A → result B) (l : list A) :
  (∀ x, x ∈ l → ∃ y, f x = Ok y) → ∃ l', mapM f l = Ok l'.
Proof.
  induction l as [|x l IH]; intros Hf; simpl; [by eexists|].
  destruct (Hf x) as [y ->]; [by left|]. simpl.
  destruct IH as [l' ->]; [intros; apply Hf; by right|]. simpl. by eexists.
Qed.


(** With a last value of its own the component keeps it; without one it
    takes the stored one. *)
Lemma getDerivedStateFromProps_lastValue props state st last :
  value_resolves props →
  (if truthy (of_optional (State.lastValue state))
   then Ok (State.lastValue state)
   else getLastValue (Props.type props) st) = Ok last →
  ∃ state', getDerivedStateFromProps props state st = Ok (Some state') ∧
            State.lastValue state' = last.
Proof.
  intros Hres Hlast. unfold getDerivedStateFromProps. rewrite Hlast. simpl.
  unfold value_resolves in Hres.
  destruct (Props.value props) as [v|l].
  - destruct Hres as [r ->]. simpl. by eexists.
  - destruct (mapM_Ok (fun v => toAddress (JStr v)) l Hres) as [l' ->].
    simpl. by eexists.
Qed.
End Handlers.

(** ** Search *)

Section Search.
Context `{Collaborators}.

Lemma filter_from_keeps_valued matches index l :
  (∀ o, o ∈ l → truthy (value o) = true) →
  filter_from (keep_entry matches) index l = l.
Proof.
  revert index; induction l as [|o l IH]; intros index Hl; simpl; [done|].
  assert (Ho : truthy (value o) = true) by (apply Hl; by left).
  apply truthy_is_string in Ho as (a & Ha & _).
  unfold keep_entry at 1. rewrite Ha. simpl.
  f_equal. apply IH. intros o' Ho'. apply Hl. by right.
Qed.

Lemma is_match_truthy queryLower filteredOptions o :
  o ∈ List.filter (is_match queryLower) filteredOptions → truthy (value o) = true.
Proof.
  rewrite list_elem_of_In, filter_In. unfold is_match.
  intros [_ Hm]. by apply andb_true_iff in Hm as [? _].
Qed.

(** The entries of [search_matches] all carry a non-empty value, when
    the entry the keyring gives for a saved address carries the address. *)
Lemma search_matches_valued props kr filteredOptions query :
  (∀ a kr, value (saveRecent a kr).2 = JStr a) →
  ∃ kr' matches,
    search_matches props kr filteredOptions query = Ok (kr', matches) ∧
    ∀ o, o ∈ matches → truthy (value o) = true.
Proof.
  intros Hrecent. unfold search_matches.
  set (matches := List.filter _ filteredOptions).
  assert (Hm : ∀ o, o ∈ matches → truthy (value o) = true)
    by (intros o; apply is_match_truthy).
  destruct (or_default true (Props.isInput props) && _); [|by eexists _, _].
  rewrite transformToAccountId_Ok. simpl.
  destruct (accountId_of_cases (trim query)) as [->|(a & -> & Ha)]; simpl.
  { by eexists _, _. }
  rewrite bool_decide_eq_false_2 by done. simpl.
  specialize (Hrecent a kr). destruct (saveRecent a kr) as [kr' option].
  eexists _, _. split; [done|].
  intros o [Ho|Ho%list_elem_of_singleton]%elem_of_app; [by apply Hm|].
  subst o. simpl in Hrecent. rewrite Hrecent. simpl.
  by rewrite bool_decide_eq_false_2.
Qed.

(** C10. For every option list and every query, every entry the search
    returns has a non-null, non-empty value: the matcher admits only
    entries with a truthy value, and the entry made for an address typed
    in carries that address (the keyring's contract for [saveRecent]).
    So no section header is returned, and the last filter of the search
    removes nothing: the result is the sequence of matches. *)
Theorem onSearch_returns_valued_entries
    (props : Props.t) (kr : Keyring) (filteredOptions : list Option) (query : string) :
  (∀ a kr, value (saveRecent a kr).2 = JStr a) →
  ∃ kr' matches,
    onSearch props kr filteredOptions query = Ok (kr', matches) ∧
    search_matches props kr filteredOptions query = Ok (kr', matches) ∧
    filter_from (keep_entry matches) 0 matches = matches ∧
    ∀ o, o ∈ matches → ∃ a, value o = JStr a ∧ a ≠ "".
Proof.
  intros Hrecent.
  destruct (search_matches_valued props kr filteredOptions query Hrecent)
    as (kr' & matches & Hs & Hv).
  exists kr', matches. unfold onSearch. rewrite Hs. simpl.
  rewrite filter_from_keeps_valued by done.
  split; [done|]. split; [done|]. split; [done|].
  intros o Ho. by apply truthy_is_string, Hv.
Qed.

End Search.

(** ** Failure of the codec stays inside *)

Section Totality.
Context `{Collaborators}.




Lemma onChangeMulti_eq props addresses :
  onChangeMulti props addresses =
  Ok (if Props.onChangeMulti props
      then Some (map as_string (List.filter truthy (accountId_of <$> addresses)))
      else None).
Proof.
  unfold onChangeMulti. destruct (Props.onChangeMulti props); [|done].
  by rewrite mapM_transformToAccountId.
Qed.



End Totality.

(** ** The remembered last value *)

Section LastValue.
Context `{Collaborators}.

(** C6, as the code has it.  Selecting [a] without a filter (the stored
    preferences being as the cast in [readOptions] declares them) writes
    [a] as the last value of the type tag, and reading the last value of
    that tag back gives [a]; selections made while a filter is set leave
    the store as it is; and a next resolution for the tag, on whose raw
    value prop the codec raises no exception, has [a] as last value when
    the component has no last value of its own yet.  A component that
    already resolved a last value keeps that one, whatever the store
    holds. *)
Theorem last_value_round_trip (props : Props.t) (st : store) (a : string) :
  Props.filter props = None →
  well_typed st →
  ∃ st' reported,
    onChange props st a = Ok (st', reported) ∧
    getLastValue (Props.type props) st' = Ok (Some a) ∧
    (∀ props' b filter,
       Props.filter props' = Some filter →
       ∃ reported', onChange props' st' b = Ok (st', reported')) ∧
    (∀ props' state,
       or_default DEFAULT_TYPE (Props.type props') = or_default DEFAULT_TYPE (Props.type props) →
       truthy (of_optional (State.lastValue state)) = false →
       value_resolves props' →
       ∃ state', getDerivedStateFromProps props' state st' = Ok (Some state') ∧
                 State.lastValue state' = Some a) ∧
    (∀ props' state,
       truthy (of_optional (State.lastValue state)) = true →
       value_resolves props' →
       ∃ state', getDerivedStateFromProps props' state st' = Ok (Some state') ∧
                 State.lastValue state' = State.lastValue state).
Proof.
  intros Hf Hwt.
  destruct (setLastValue_well_typed (Props.type props) a st Hwt) as (m & _ & Hset).
  destruct (set_then_get _ _ _ _ Hset Hwt) as [Hget _].
  rewrite onChange_eq, Hf, Hset. simpl.
  eexists _, _. split; [done|]. split; [done|].
  split; [|split].
  - intros props' b filter Hf'. rewrite onChange_eq, Hf'. simpl. by eexists.
  - intros props' state Htype Hlast Hres.
    apply getDerivedStateFromProps_lastValue; [done|].
    rewrite Hlast. unfold getLastValue in *. by rewrite Htype.
  - intros props' state Hlast Hres.
    apply getDerivedStateFromProps_lastValue; [done|]. by rewrite Hlast.
Qed.
End LastValue.

(** ** What a disabled control renders *)

Section Disabled.
Context `{Collaborators}.

(** C7, as the code has it.  Without an explicit option list and with
    an active value [a] (the canonical form of the candidate): when the
    control is disabled, the candidate is the default value and the
    rendered option list is the one entry made for [a], nothing of the
    bucket; when the control is not disabled, the bucket of the type tag
    is supplied and not empty, and [a] is absent from the filtered
    bucket, the rendered option list is the filtered bucket followed by
    the entry made for [a]. *)
Theorem disabled_renders_the_default_alone
    (props : Props.t) (state : State.t) (kr : Keyring) (a : string) :
  Props.options props = None →
  canonical_of (candidate props state) = JStr a →
  (or_default false (Props.isDisabled props) = true →
   candidate props state = Props.defaultValue props ∧
   ∃ d, render props state kr = Ok (Dropdown_of d) ∧
        dd_options d = [createOption kr a] ∧
        (Props.isMultiple props = false → State.value state = NoValue →
         dd_defaultValue d = JStr a)) ∧
  (or_default false (Props.isDisabled props) = false →
   hasOptions props = true →
   ¬ present props (JStr a) →
   ∃ d, render props state kr = Ok (Dropdown_of d) ∧
        dd_options d = getFiltered props ++ [createOption kr a]).
Proof.
  intros Hopts Hcanon.
  assert (Hne : a ≠ "").
  { destruct (canonical_of_cases (candidate props state)) as [Hc|(a' & Hc & Hne & _)];
      rewrite Hc in Hcanon; [done|]. by injection Hcanon as <-. }
  split.
  - intros Hdis. split.
    { unfold candidate. by rewrite Hdis. }
    unfold render. rewrite Hdis, andb_false_r, transformToAddress_Ok. simpl.
    eexists. split; [done|]. simpl. split.
    + unfold actualOptions. rewrite Hopts, Hdis, Hcanon. simpl.
      by rewrite bool_decide_eq_false_2.
    + intros -> ->. simpl. done.
  - intros Hdis Hhas Habs.
    unfold render. rewrite Hdis, Hhas, transformToAddress_Ok. simpl.
    eexists. split; [done|]. simpl.
    unfold actualOptions. rewrite Hopts, Hdis, Hcanon. simpl.
    rewrite bool_decide_eq_false_2 by done. simpl.
    unfold addActual.
    assert (Hno : hasValue props (JStr a) = false)
      by (apply hasValue_absent; by rewrite and_toString_prim).
    by rewrite Hno.
Qed.
End Disabled.

(** * The properties on concrete inputs

    The sample registry and codec instantiate the collaborators. *)

Lemma sample_saveRecent_value a kr : value (sample_saveRecent a kr).2 = JStr a.
Proof. done. Qed.

Lemma sample_header_not_canonical v : sample_toAddress v ≠ Ok (Some "header-accounts").
Proof.
  destruct v as [[| |s]|b]; simpl; try done.
  case_bool_decide; [done|].
  destruct (all_alnum s) eqn:Hs; [|done].
  intros [= ->]. by vm_compute in Hs.
Qed.

(** The end-to-end examples of the spec (section 8). *)
Example excluded_entry_is_filtered_out :
  getFiltered excluding_bob = [alice] ∧
  render excluding_bob fresh_state empty_keyring
  = Ok (Dropdown_of {| dd_defaultValue := JStr "5A1";
                       dd_options := [alice];
                       dd_value := NoValue |}).
Proof. split; by vm_compute. Qed.

Example last_value_wins_over_last_entry :
  render (props_of JUndefined None None None [bob; alice] None)
         {| State.lastValue := Some "5B1"; State.value := NoValue |} empty_keyring
  = Ok (Dropdown_of {| dd_defaultValue := JStr "5B1";
                       dd_options := [bob; alice];
                       dd_value := NoValue |}).
Proof. by vm_compute. Qed.

Example last_entry_is_the_fallback :
  render sample_props fresh_state empty_keyring
  = Ok (Dropdown_of {| dd_defaultValue := JStr "5B1";
                       dd_options := [alice; bob];
                       dd_value := NoValue |}).
Proof. by vm_compute. Qed.

Example codec_exception_is_caught :
  toAddress (JStr "5C 1") = Throw (Error "Invalid decoded address") ∧
  transformToAddress (JStr "5C 1") = Ok JNull ∧
  getDerivedStateFromProps
    {| Props.defaultValue := JUndefined; Props.filter := None;
       Props.isDisabled := None; Props.isInput := None;
       Props.isMultiple := false; Props.onChange := true;
       Props.onChangeMulti := false; Props.options := None;
       Props.optionsAll := None; Props.type := None;
       Props.value := OneValue (JStr "5C 1"); Props.withExclude := None |}
    fresh_state None
  = Ok None.
Proof. repeat split; by vm_compute. Qed.

(** C2 at the selection of "5A1", nothing stored, no filter. *)
Lemma onChange_contract_witness :
  (Props.filter sample_props = None → well_typed None) ∧
  ∃ st', onChange sample_props None "5A1" = Ok (st', Some (JStr "5A1")) ∧
         getLastValue None st' = Ok (Some "5A1").
Proof.
  split; [done|].
  destruct (onChange_contract (H := sample) sample_props None "5A1")
    as (st' & reported & Hon & Hset & _ & _ & Hrep); [done|].
  exists st'. destruct (Hset eq_refl) as [_ Hget]. split; [|done].
  destruct (Hrep eq_refl) as [Hyes _]. rewrite Hon, Hyes; [done|].
  split; [done|]. left. exists alice. split; [|done].
  vm_compute. by left.
Defined.

(** C3 at a bucket with a section header and a repeated entry, the
    default value "5C1" being appended under the tag "allPlus". *)
Lemma dedupe_one_entry_per_key_witness :
  dedupe [accounts_header; alice; bob; alice] = [accounts_header; alice; bob] ∧
  ∃ d, render (props_of (JStr "5C1") None None (Some AllPlus)
                 [accounts_header; alice; bob; alice] None)
              fresh_state empty_keyring = Ok (Dropdown_of d) ∧
       key <$> dd_options d = ["header-accounts"; "5A1"; "5B1"; "5C1"] ∧
       NoDup (key <$> dd_options d).
Proof.
  destruct (dedupe_one_entry_per_key [accounts_header; alice; bob; alice])
    as (Hfirst & _ & _ & _ & _ & _ & Hrender).
  split; [by rewrite Hfirst|].
  eexists. split; [by vm_compute|]. split; [done|].
  apply (Hrender (props_of (JStr "5C1") None None (Some AllPlus)
                    [accounts_header; alice; bob; alice] None)
                 fresh_state empty_keyring).
  - done.
  - done.
  - intros optionsAll o [= <-] Ho. simpl in Ho.
    unfold keyed_by_address.
    repeat (apply elem_of_cons in Ho as [->|Ho]); simpl; try done.
    + apply sample_header_not_canonical.
    + by apply elem_of_nil in Ho.
  - by vm_compute.
Defined.

(** C4 fails where a filter is set: the section header is in the
    deduplicated bucket and the filter step removes it. *)
Lemma header_removed_by_filter :
  accounts_header ∈ dedupe [accounts_header; alice; bob] ∧
  value accounts_header = JNull ∧
  Props.filter filtered_with_header = Some ["5A1"] ∧
  getFiltered filtered_with_header = [alice] ∧
  accounts_header ∉ getFiltered filtered_with_header.
Proof.
  split; [vm_compute; by left|]. split; [done|]. split; [done|].
  split; [by vm_compute|].
  replace (getFiltered filtered_with_header) with [alice] by by vm_compute.
  by intros ?%list_elem_of_singleton.
Qed.


(** C6 fails for a component that already resolved a last value: the
    store remembers "5B1", the component resolves it, "5A1" is selected
    without a filter and written, and the next resolution still has
    "5B1". *)
Lemma resolved_last_value_is_kept :
  getDerivedStateFromProps sample_props fresh_state remembers_bob
  = Ok (Some {| State.lastValue := Some "5B1"; State.value := NoValue |}) ∧
  Props.filter sample_props = None ∧
  isAddress "5A1" = true ∧
  ∃ st', onChange sample_props remembers_bob "5A1" = Ok (st', Some (JStr "5A1")) ∧
         getLastValue (Props.type sample_props) st' = Ok (Some "5A1") ∧
         getDerivedStateFromProps sample_props
           {| State.lastValue := Some "5B1"; State.value := NoValue |} st'
         = Ok (Some {| State.lastValue := Some "5B1"; State.value := NoValue |}) ∧
         Some "5B1" ≠ Some "5A1".
Proof.
  split; [by vm_compute|]. split; [done|]. split; [done|].
  eexists. split; [by vm_compute|]. split; [by vm_compute|].
  split; [by vm_compute|]. done.
Qed.

(** C6 as amended, at the selection of "5A1" with nothing stored and a
    component without a last value of its own. *)
Lemma last_value_round_trip_witness :
  Props.filter sample_props = None ∧
  well_typed None ∧
  ∃ st' state',
    onChange sample_props None "5A1" = Ok (st', Some (JStr "5A1")) ∧
    (∃ reported, onChange excluding_bob st' "5B1" = Ok (st', reported)) ∧
    getDerivedStateFromProps sample_props fresh_state st' = Ok (Some state') ∧
    State.lastValue state' = Some "5A1".
Proof.
  split; [done|]. split; [done|].
  destruct (last_value_round_trip (H := sample) sample_props None "5A1")
    as (st' & reported & Hon & _ & Hkeep & Hnext & _); [done|done|].
  assert (Hr : onChange (H := sample) sample_props None "5A1"
               = Ok ((Some {| defaults := DefaultsOf {[ "all" := "5A1" ]} |} : store),
                     Some (JStr "5A1"))) by by vm_compute.
  rewrite Hr in Hon. injection Hon as <- <-.
  destruct (Hnext sample_props fresh_state) as (state' & Hd & Hl);
    [done|done|by eexists|].
  eexists _, state'. split; [exact Hr|].
  split; [by apply (Hkeep excluding_bob "5B1" ["5B1"])|]. done.
Defined.

(** C7 fails: disabled, with the default value "5C1" that the bucket
    [alice; bob] lacks, the control renders the entry made for "5C1"
    alone, not the bucket entries plus that entry. *)
Lemma disabled_drops_the_bucket :
  or_default false (Props.isDisabled disabled_props) = true ∧
  Props.defaultValue disabled_props = JStr "5C1" ∧
  ¬ present disabled_props (JStr "5C1") ∧
  getFiltered disabled_props = [alice; bob] ∧
  ∃ d, render (H := sample) disabled_props fresh_state empty_keyring = Ok (Dropdown_of d) ∧
       dd_defaultValue d = JStr "5C1" ∧
       dd_options d = [createOption (H := sample) empty_keyring "5C1"] ∧
       dd_options d ≠ [alice; bob] ++ [createOption (H := sample) empty_keyring "5C1"].
Proof.
  split; [done|]. split; [done|]. split.
  { intros (o & Ho & Hv). replace (getFiltered disabled_props) with [alice; bob] in Ho
      by by vm_compute.
    repeat (apply elem_of_cons in Ho as [->|Ho]); try done.
    by apply elem_of_nil in Ho. }
  split; [by vm_compute|].
  eexists. split; [by vm_compute|]. split; [done|]. split; [by vm_compute|].
  by vm_compute.
Qed.

(** C7 as amended: at the same input, and at the default value "5C1"
    under "allPlus" with the control enabled, where the bucket entries
    are rendered followed by the entry made for "5C1". *)
Lemma disabled_renders_the_default_alone_witness :
  Props.options disabled_props = None ∧
  canonical_of (H := sample) (candidate disabled_props fresh_state) = JStr "5C1" ∧
  or_default false (Props.isDisabled disabled_props) = true ∧
  (∃ d, render (H := sample) disabled_props fresh_state empty_keyring = Ok (Dropdown_of d) ∧
        dd_options d = [createOption (H := sample) empty_keyring "5C1"] ∧
        dd_defaultValue d = JStr "5C1") ∧
  Props.options allPlus_default = None ∧
  canonical_of (H := sample) (candidate allPlus_default fresh_state) = JStr "5C1" ∧
  or_default false (Props.isDisabled allPlus_default) = false ∧
  hasOptions allPlus_default = true ∧
  ¬ present allPlus_default (JStr "5C1") ∧
  (∃ d, render (H := sample) allPlus_default fresh_state empty_keyring = Ok (Dropdown_of d) ∧
        dd_options d = [alice; bob; createOption (H := sample) empty_keyring "5C1"]).
Proof.
  split; [done|]. split; [by vm_compute|]. split; [done|].
  split.
  { destruct (disabled_renders_the_default_alone (H := sample)
                disabled_props fresh_state empty_keyring "5C1") as [Hdis _];
      [done|by vm_compute|].
    destruct (Hdis eq_refl) as (_ & d & Hr & Hopts & Hdef).
    exists d. split; [done|]. split; [done|]. by apply Hdef. }
  split; [done|]. split; [by vm_compute|]. split; [done|]. split; [by vm_compute|].
  assert (Habsent : ¬ present allPlus_default (JStr "5C1")).
  { intros (o & Ho & Hv).
    replace (getFiltered allPlus_default) with [alice; bob] in Ho by by vm_compute.
    repeat (apply elem_of_cons in Ho as [->|Ho]); try done.
    by apply elem_of_nil in Ho. }
  split; [done|].
  destruct (disabled_renders_the_default_alone (H := sample)
              allPlus_default fresh_state empty_keyring "5C1") as [_ Hen];
    [done|by vm_compute|].
  destruct (Hen eq_refl) as (d & Hr & Hopts); [by vm_compute|done|].
  exists d. split; [done|]. rewrite Hopts. by vm_compute.
Defined.



(** C10 at a list with a section header and the query "a", and at a
    query that is an address nobody has. *)
Lemma onSearch_returns_valued_entries_witness :
  (∀ a kr, value (sample_saveRecent a kr).2 = JStr a) ∧
  (∃ kr' matches,
     onSearch (H := sample) sample_props empty_keyring [accounts_header; alice; bob] "A"
     = Ok (kr', matches) ∧
     matches = [alice] ∧
     ∀ o, o ∈ matches → ∃ a, value o = JStr a ∧ a ≠ "") ∧
  (∃ kr' matches,
     onSearch (H := sample) sample_props empty_keyring [accounts_header; alice; bob] "5C1"
     = Ok (kr', matches) ∧
     key <$> matches = ["5C1"] ∧
     ∀ o, o ∈ matches → ∃ a, value o = JStr a ∧ a ≠ "").
Proof.
  split; [apply sample_saveRecent_value|]. split.
  - destruct (onSearch_returns_valued_entries (H := sample) sample_props empty_keyring
                [accounts_header; alice; bob] "A" sample_saveRecent_value)
      as (kr' & matches & Hs & _ & _ & Hv).
    exists kr', matches. split; [done|]. split; [|done].
    assert (Hc : onSearch (H := sample) sample_props empty_keyring
                   [accounts_header; alice; bob] "A" = Ok (empty_keyring, [alice]))
      by by vm_compute.
    rewrite Hc in Hs. by injection Hs as _ <-.
  - destruct (onSearch_returns_valued_entries (H := sample) sample_props empty_keyring
                [accounts_header; alice; bob] "5C1" sample_saveRecent_value)
      as (kr' & matches & Hs & _ & _ & Hv).
    exists kr', matches. split; [done|]. split; [|done].
    assert (Hc : ∃ kr'', onSearch (H := sample) sample_props empty_keyring
                   [accounts_header; alice; bob] "5C1"
                 = Ok (kr'', [sample_createOptionItem "5C1" None]))
      by (eexists; by vm_compute).
    destruct Hc as [kr'' Hc]. rewrite Hc in Hs. by injection Hs as _ <-.
Defined.

(** * Further properties of the component *)

(** ** dedupe, once more *)

Section DedupeAgain.
Implicit Types (l : list Option) (seen : list string).

Lemma first_occurrences_fixed seen l :
  NoDup (key <$> l) →
  (∀ k, k ∈ (key <$> l) → k ∉ seen) →
  first_occurrences seen l = l.
Proof.
  revert seen; induction l as [|o l IH]; intros seen Hnd Hseen; simpl; [done|].
  rewrite fmap_cons in Hnd. apply NoDup_cons in Hnd as [Ho Hnd].
  rewrite bool_decide_eq_false_2 by (apply Hseen; rewrite fmap_cons; by left).
  f_equal. apply IH; [done|].
  intros k Hk [->|Hin]%elem_of_cons; [done|].
  eapply Hseen; [|exact Hin]. rewrite fmap_cons. by right.
Qed.

Lemma first_occurrences_all_seen seen l :
  (∀ k, k ∈ (key <$> l) → k ∈ seen) → first_occurrences seen l = [].
Proof.
  induction l as [|o l IH]; intros Hseen; simpl; [done|].
  rewrite bool_decide_eq_true_2 by (apply Hseen; rewrite fmap_cons; by left).
  apply IH. intros k Hk. apply Hseen. rewrite fmap_cons. by right.
Qed.

Lemma first_occurrences_app seen l1 l2 :
  first_occurrences seen (l1 ++ l2)
  = first_occurrences seen l1 ++ first_occurrences ((key <$> l1) ++ seen) l2.
Proof.
  revert seen; induction l1 as [|o l1 IH]; intros seen; simpl; [done|].
  case_bool_decide as Hin.
  - rewrite IH. f_equal. apply first_occurrences_ext. intros k.
    rewrite !elem_of_app, elem_of_cons, elem_of_app. naive_solver.
  - simpl. f_equal. rewrite IH. f_equal. apply first_occurrences_ext. intros k.
    rewrite !elem_of_app, !elem_of_cons, elem_of_app. naive_solver.
Qed.

(** X1. [dedupe] is idempotent, and appending a list to itself (or any
    entries whose keys occur already) adds nothing to the result. *)
Theorem dedupe_idempotent l :
  dedupe (dedupe l) = dedupe l ∧
  dedupe (l ++ l) = dedupe l ∧
  ∀ l', (∀ o, o ∈ l' → key o ∈ (key <$> l)) → dedupe (l ++ l') = dedupe l.
Proof.
  assert (Happ : ∀ l', (∀ o, o ∈ l' → key o ∈ (key <$> l)) → dedupe (l ++ l') = dedupe l).
  { intros l' Hl'. rewrite !dedupe_first_occurrences, first_occurrences_app.
    rewrite (first_occurrences_all_seen ((key <$> l) ++ []) l'); [by rewrite app_nil_r|].
    intros k (o & -> & Ho)%list_elem_of_fmap. rewrite app_nil_r. by apply Hl'. }
  split; [|split; [|done]].
  - rewrite (dedupe_first_occurrences (dedupe l)).
    apply first_occurrences_fixed; [apply dedupe_NoDup|].
    intros k _. apply not_elem_of_nil.
  - apply Happ. intros o Ho. apply list_elem_of_fmap. by exists o.
Qed.

(** X2. A sequence whose keys are pairwise distinct is returned as it
    is. *)
Theorem dedupe_keeps_distinct_keys l :
  NoDup (key <$> l) → dedupe l = l.
Proof.
  intros Hnd. rewrite dedupe_first_occurrences.
  apply first_occurrences_fixed; [done|]. intros k _. apply not_elem_of_nil.
Qed.
End DedupeAgain.

(** ** The filter, in both modes *)

Section FilterModes.

Lemma elem_of_getFiltered props filter o :
  Props.filter props = Some filter →
  o ∈ getFiltered props ↔
  o ∈ deduped_bucket props ∧
  ∃ a, value o = JStr a ∧ a ≠ "" ∧
       if or_default false (Props.withExclude props) then a ∉ filter else a ∈ filter.
Proof.
  intros Hf. unfold getFiltered, deduped_bucket.
  destruct (Props.optionsAll props) as [optionsAll|].
  2:{ rewrite elem_of_nil. naive_solver. }
  rewrite Hf, list_elem_of_In, filter_In, <- list_elem_of_In.
  apply and_iff_compat_l. rewrite andb_true_iff. split.
  - intros [(a & Ha & Hne)%truthy_is_string Hi].
    exists a. rewrite Ha in Hi. repeat split; [done..|].
    destruct (or_default false (Props.withExclude props)).
    + apply negb_true_iff in Hi. simpl in Hi. by apply bool_decide_eq_false in Hi.
    + simpl in Hi. by apply bool_decide_eq_true in Hi.
  - intros (a & Ha & Hne & Hi). rewrite Ha. simpl. split.
    + by rewrite bool_decide_eq_false_2.
    + destruct (or_default false (Props.withExclude props)).
      * apply negb_true_iff. by apply bool_decide_eq_false.
      * by apply bool_decide_eq_true.
Qed.

(** X3. For one filter on one bucket, the include mode and the exclude
    mode split the entries that have a non-empty address: no entry is in
    both filtered buckets, and every such entry of the deduplicated
    bucket is in one of them. *)
Theorem include_and_exclude_split_the_bucket (included excluded : Props.t) (filter : list string) :
  Props.filter included = Some filter →
  Props.filter excluded = Some filter →
  or_default false (Props.withExclude included) = false →
  or_default false (Props.withExclude excluded) = true →
  deduped_bucket included = deduped_bucket excluded →
  (∀ o, o ∈ getFiltered included → o ∉ getFiltered excluded) ∧
  (∀ o, o ∈ deduped_bucket included → truthy (value o) = true →
        o ∈ getFiltered included ∨ o ∈ getFiltered excluded).
Proof.
  intros Hfi Hfe Hi He Hb. split.
  - intros o (_ & a & Ha & _ & Hin)%(elem_of_getFiltered _ filter); [|done].
    intros (_ & a' & Ha' & _ & Hout)%(elem_of_getFiltered _ filter); [|done].
    rewrite Hi in Hin. rewrite He in Hout. congruence.
  - intros o Ho (a & Ha & Hne)%truthy_is_string.
    destruct (decide (a ∈ filter)) as [Hin|Hout].
    + left. apply (elem_of_getFiltered _ filter); [done|].
      split; [done|]. exists a. by rewrite Hi.
    + right. apply (elem_of_getFiltered _ filter); [done|].
      split; [by rewrite <- Hb|]. exists a. by rewrite He.
Qed.

(** X4. An empty filter array is a filter: in include mode it leaves no
    entry at all, in exclude mode it leaves the entries with a non-empty
    address, in their order, and so still removes the section headers. *)
Theorem empty_filter_array (props : Props.t) :
  Props.filter props = Some [] →
  (or_default false (Props.withExclude props) = false → getFiltered props = []) ∧
  (or_default false (Props.withExclude props) = true →
   getFiltered props = List.filter (fun o => truthy (value o)) (deduped_bucket props)).
Proof.
  intros Hf. unfold getFiltered, deduped_bucket. rewrite Hf.
  destruct (Props.optionsAll props) as [optionsAll|]; [|done].
  generalize (dedupe (optionsAll (or_default DEFAULT_TYPE (Props.type props)))).
  intros l. split; intros ->.
  - induction l as [|o l IH]; simpl; [done|].
    replace (array_includes [] (value o)) with false.
    + by rewrite andb_false_r.
    + by destruct (value o) as [| |a].
  - induction l as [|o l IH]; simpl; [done|].
    replace (array_includes [] (value o)) with false.
    + simpl. rewrite andb_true_r. by rewrite IH.
    + by destruct (value o) as [| |a].
Qed.
End FilterModes.

(** ** The store, tag by tag *)

Section StoreFrame.
Implicit Types (st : store) (type : option KeyringOption_Type).

(** X5. Writing the last value of one type tag (the stored preferences
    being as the cast in [readOptions] declares them) leaves the last
    value of every other tag as it was, an omitted tag standing for
    "all"; it is read back under the tag written; and a later write to
    the same tag replaces it, the earlier one leaving no trace. *)
Theorem setLastValue_touches_one_tag type (a : string) st st' :
  well_typed st →
  setLastValue type a st = Ok st' →
  (∀ type', or_default DEFAULT_TYPE type' ≠ or_default DEFAULT_TYPE type →
            getLastValue type' st' = getLastValue type' st) ∧
  (∀ type', or_default DEFAULT_TYPE type' = or_default DEFAULT_TYPE type →
            getLastValue type' st' = Ok (Some a)) ∧
  (∀ b, setLastValue type b st' = setLastValue type b st).
Proof.
  intros Hwt Hset.
  destruct (setLastValue_well_typed type a st Hwt) as (m & Hread & Heq).
  rewrite Heq in Hset. injection Hset as <-.
  split; [|split].
  - intros type' Hne. unfold getLastValue. rewrite Hread. simpl.
    rewrite lookup_insert_ne; [done|]. intros Hk. by apply type_key_inj in Hk.
  - intros type' Htag. unfold getLastValue. cbn [readOptions defaults].
    rewrite Htag. by rewrite lookup_insert_eq.
  - intros b. unfold setLastValue. rewrite Hread. simpl.
    by rewrite insert_insert_eq.
Qed.
End StoreFrame.

(** ** What is reported and rendered *)

Section Reported.
Context `{Collaborators}.

(** X6. Whatever a single selection reports to the caller is [null] or
    a non-empty string, namely the one the codec returned for the
    selected (non-empty) string: never [undefined], never the empty
    string, never the raw selection unless the codec returns it. *)
Theorem onChange_reports_null_or_canonical
    (props : Props.t) (st st' : store) (addr : string) (reported : jsval) :
  onChange props st addr = Ok (st', Some reported) →
  reported = JNull ∨
  ∃ a, reported = JStr a ∧ a ≠ "" ∧ addr ≠ "" ∧ toAddress (JStr addr) = Ok (Some a).
Proof.
  rewrite onChange_eq.
  destruct (match Props.filter props with None => _ | Some _ => _ end); simpl; [|done].
  destruct (Props.onChange props); [|done].
  intros [= _ <-].
  destruct (_ && _); [|by left].
  unfold accountId_of. case_bool_decide as Hne; [by left|].
  destruct (canonical_of_cases (JStr addr)) as [->|(c & -> & Hc & Hcodec)]; [by left|].
  right. by exists c.
Qed.

(** X7. [render] gives the notice that no account is available exactly
    when the control is not disabled, the explicit option list is
    missing or empty, and the bucket of the type tag is missing or
    empty; the filter, the state and the default value play no part. *)
Theorem render_notice_iff (props : Props.t) (state : State.t) (kr : Keyring) :
  render props state kr = Ok Static_notice ↔
  or_default false (Props.isDisabled props) = false ∧
  (Props.options props = None ∨ Props.options props = Some []) ∧
  (Props.optionsAll props = None ∨
   ∃ optionsAll, Props.optionsAll props = Some optionsAll ∧
                 optionsAll (or_default DEFAULT_TYPE (Props.type props)) = []).
Proof.
  unfold render, hasOptions.
  destruct (or_default false (Props.isDisabled props)).
  { rewrite andb_false_r, transformToAddress_Ok. simpl. naive_solver. }
  rewrite andb_true_r.
  destruct (Props.options props) as [[|o options]|];
    destruct (Props.optionsAll props) as [optionsAll|]; simpl;
    try destruct (optionsAll _) as [|o' l] eqn:Hb; simpl;
    rewrite ?transformToAddress_Ok; simpl; try naive_solver.
  all: split; [done|]; intros (_ & _ & [?|(oa & ? & ?)]); simplify_eq; congruence.
Qed.

(** X8. Without an explicit option list, an active value is always
    among the rendered options (the item constructors keeping the
    address as value): the entry of the filtered bucket that carries it,
    or the entry made for it. *)
Theorem active_value_is_rendered
    (props : Props.t) (state : State.t) (kr : Keyring) (d : Dropdown) (a : string) :
  (∀ a n, value (createOptionItem a n) = JStr a) →
  (∀ o u, value (createItem o u) = value o) →
  Props.options props = None →
  render props state kr = Ok (Dropdown_of d) →
  canonical_of (candidate props state) = JStr a →
  ∃ o, o ∈ dd_options d ∧ value o = JStr a.
Proof.
  intros Hitem Hcreate Hopts Hr Hcanon.
  apply render_Dropdown in Hr as ->. simpl.
  assert (Hne : a ≠ "").
  { destruct (canonical_of_cases (candidate props state)) as [Hc|(a' & Hc & Hne & _)];
      rewrite Hc in Hcanon; [done|]. by injection Hcanon as <-. }
  assert (Hmade : value (createOption kr a) = JStr a).
  { unfold createOption.
    destruct (getAccount kr a); [|destruct (getAddress kr a)];
      by rewrite Hcreate, Hitem. }
  unfold actualOptions. rewrite Hopts, Hcanon. simpl.
  rewrite bool_decide_eq_false_2 by done. simpl. rewrite andb_true_r.
  destruct (or_default false (Props.isDisabled props)).
  { exists (createOption kr a). split; [by left|done]. }
  unfold addActual. destruct (hasValue props (JStr a)) eqn:Hhas.
  - apply hasValue_present in Hhas. by rewrite and_toString_prim in Hhas.
  - exists (createOption kr a). split; [|done].
    apply elem_of_app. right. by left.
Qed.
End Reported.

(** ** The last filter of the search, and queries that match *)

Section SearchAgain.
Context `{Collaborators}.

Lemma truthy_not_header o : truthy (value o) = true → is_header o = false.
Proof.
  intros (a & Ha & _)%truthy_is_string. unfold is_header. by rewrite Ha.
Qed.

Lemma filter_from_keep_entry pre l :
  filter_from (keep_entry (pre ++ l)) (length pre) l = drop_orphans l.
Proof.
  revert pre; induction l as [|item l IH]; intros pre; [done|].
  cbn [filter_from drop_orphans].
  replace (keep_entry (pre ++ item :: l) item (length pre))
    with (negb (is_header item) ||
          match l with
          | nextItem :: _ => truthy (value nextItem)
          | [] => false
          end).
  - replace (pre ++ item :: l) with ((pre ++ [item]) ++ l) by by rewrite <- app_assoc.
    replace (S (length pre)) with (length (pre ++ [item]))
      by (rewrite length_app; simpl; lia).
    rewrite IH. done.
  - unfold keep_entry, is_header. f_equal.
    replace (length pre + 1)%nat with (length pre + 1 + 0)%nat by lia.
    rewrite lookup_app_r by lia.
    replace (length pre + 1 + 0 - length pre)%nat with 1%nat by lia.
    destruct l as [|nextItem l]; simpl.
    + by rewrite andb_false_r.
    + rewrite length_app. simpl.
      replace (Z.of_nat (length pre) =? Z.of_nat (length pre + S (S (length l))) - 1)%Z
        with false by (symmetry; apply Z.eqb_neq; lia).
      done.
Qed.

Lemma drop_orphans_sublist l : sublist (drop_orphans l) l.
Proof.
  induction l as [|item l IH]; simpl; [constructor|].
  destruct (negb (is_header item) || _); [by apply sublist_skip|by apply sublist_cons].
Qed.

Lemma drop_orphans_followed l i o :
  drop_orphans l !! i = Some o → is_header o = true →
  ∃ o', drop_orphans l !! S i = Some o' ∧ truthy (value o') = true.
Proof.
  revert i; induction l as [|item l IH]; intros i; simpl; [done|].
  destruct (negb (is_header item)) eqn:Hitem; simpl.
  - destruct i as [|i]; simpl; [|by apply IH].
    intros [= <-] Hh. by rewrite Hh in Hitem.
  - destruct l as [|nextItem l]; [simpl; done|].
    destruct (truthy (value nextItem)) eqn:Hnext; [|by apply IH].
    destruct i as [|i]; [|by apply IH].
    intros _ _. exists nextItem. split; [|done].
    cbn [drop_orphans lookup list_lookup]. simpl.
    by rewrite (truthy_not_header _ Hnext).
Qed.

(** X9. The last filter of [onSearch], on any sequence of matches:
    it keeps the order and every entry that has a value; an entry
    without a value survives only right in front of an entry with a
    non-empty value, so in the result every section header is directly
    followed by a selectable entry and none stands at the end. *)
Theorem search_filter_drops_orphan_headers (matches : list Option) :
  let result := filter_from (keep_entry matches) 0 matches in
  result = drop_orphans matches ∧
  sublist result matches ∧
  (∀ o, o ∈ matches → is_header o = false → o ∈ result) ∧
  (∀ i o, result !! i = Some o → is_header o = true →
          ∃ o', result !! S i = Some o' ∧ truthy (value o') = true) ∧
  (∀ o, last result = Some o → is_header o = false).
Proof.
  intros result.
  assert (Hr : result = drop_orphans matches) by apply (filter_from_keep_entry []).
  rewrite Hr. split; [done|]. split; [apply drop_orphans_sublist|].
  split; [|split].
  - clear. intros o. induction matches as [|item l IH]; [by intros ?%elem_of_nil|].
    intros [->|Ho]%elem_of_cons Hh; cbn [drop_orphans].
    + rewrite Hh. simpl. by left.
    + destruct (negb (is_header item) || _); [right|]; by apply IH.
  - apply drop_orphans_followed.
  - intros o Hlast. destruct (is_header o) eqn:Hh; [|done].
    rewrite last_lookup in Hlast.
    destruct (drop_orphans_followed _ _ _ Hlast Hh) as (o' & Ho' & _).
    apply lookup_lt_Some in Ho'. apply lookup_lt_Some in Hlast. lia.
Qed.

Lemma includes_empty s : includes s "" = true.
Proof. by destruct s. Qed.

Lemma is_match_blank o : is_match "" o = truthy (value o).
Proof. unfold is_match. by rewrite includes_empty, orb_true_r, andb_true_r. Qed.

Lemma filter_ext_bool {A} (p q : A → bool) (l : list A) :
  (∀ x, p x = q x) → List.filter p l = List.filter q l.
Proof. intros Hpq. induction l as [|x l IH]; simpl; [done|]. by rewrite Hpq, IH. Qed.

(** X10. A blank query (nothing left after trimming) returns the entries
    of the list that have a non-empty value, in their order, without
    the section headers; nothing is saved in the registry, input
    allowed or not. *)
Theorem onSearch_blank_query
    (props : Props.t) (kr : Keyring) (filteredOptions : list Option) (query : string) :
  trim query = "" →
  onSearch props kr filteredOptions query
  = Ok (kr, List.filter (fun o => truthy (value o)) filteredOptions).
Proof.
  intros Hblank. unfold onSearch, search_matches. rewrite Hblank. simpl toLowerCase.
  rewrite (filter_ext_bool (is_match "") (fun o => truthy (value o))) by apply is_match_blank.
  set (matches := List.filter _ filteredOptions).
  assert (Hv : ∀ o, o ∈ matches → truthy (value o) = true).
  { intros o Ho. by apply list_elem_of_In, filter_In in Ho as [_ ?]. }
  destruct (or_default true (Props.isInput props) && _); simpl;
    by rewrite filter_from_keeps_valued.
Qed.

End SearchAgain.

(** ** The derived state and the multiple selection *)

Section Derived.
Context `{Collaborators}.

Lemma mapM_Forall2 {A B} (f : A → result B) (l : list A) (l' : list B) :
  mapM f l = Ok l' → Forall2 (fun x y => f x = Ok y) l l'.
Proof.
  revert l'; induction l as [|x l IH]; intros l'; simpl.
  { intros [= <-]. constructor. }
  destruct (f x) as [y|e] eqn:Hx; simpl; [|done].
  destruct (mapM f l) as [ys|e]; simpl; [|done].
  intros [= <-]. constructor; [done|]. by apply IH.
Qed.

(** What the value part of [getDerivedStateFromProps] computes. *)
Lemma getDerivedStateFromProps_Some props state st state' :
  getDerivedStateFromProps props state st = Ok (Some state') →
  (if truthy (of_optional (State.lastValue state))
   then Ok (State.lastValue state)
   else getLastValue (Props.type props) st) = Ok (State.lastValue state') ∧
  match Props.value props with
  | ManyValues l =>
      ∃ l', mapM (fun v => toAddress (JStr v)) l = Ok l' ∧
            State.value state' = ManyAddresses l'
  | OneValue v =>
      ∃ r, toAddress v = Ok r ∧
           State.value state'
           = if truthy (of_optional r) then OneAddress (as_string (of_optional r)) else NoValue
  end.
Proof.
  unfold getDerivedStateFromProps.
  destruct (if truthy _ then _ else _) as [last|e]; simpl; [|done].
  destruct (Props.value props) as [v|l].
  - destruct (toAddress v) as [r|e]; simpl; [|done].
    intros [= <-]. simpl. split; [done|]. by exists r.
  - destruct (mapM _ l) as [l'|e]; simpl; [|done].
    intros [= <-]. simpl. split; [done|]. by exists l'.
Qed.

(** X12. When [getDerivedStateFromProps] gives a state: for a scalar
    value prop the tracked value is missing or is the non-empty string
    the codec returned for it (never the empty string); for an array it
    is an array of the same length, holding position by position what
    the codec returned, [undefined] included. *)
Theorem derived_value_shape (props : Props.t) (state state' : State.t) (st : store) :
  getDerivedStateFromProps props state st = Ok (Some state') →
  match Props.value props with
  | OneValue v =>
      (State.value state' = NoValue ∧
       (toAddress v = Ok None ∨ toAddress v = Ok (Some ""))) ∨
      ∃ s, s ≠ "" ∧ toAddress v = Ok (Some s) ∧ State.value state' = OneAddress s
  | ManyValues l =>
      ∃ l', State.value state' = ManyAddresses l' ∧
            length l' = length l ∧
            Forall2 (fun v r => toAddress (JStr v) = Ok r) l l'
  end.
Proof.
  intros [_ Hv]%getDerivedStateFromProps_Some.
  destruct (Props.value props) as [v|l].
  - destruct Hv as ([s|] & Hr & ->); simpl; [|left; by split; [|left]].
    case_bool_decide as Hs; simpl.
    + subst s. left. split; [done|by right].
    + right. by exists s.
  - destruct Hv as (l' & Hm & ->). exists l'. split; [done|].
    apply mapM_Forall2 in Hm. split; [|done].
    symmetry. by eapply Forall2_length.
Qed.

(** X13. Once a state with a non-empty last value is derived, deriving
    again from it with the same props gives the same state, whatever
    the store holds by then (a store that would make reading raise
    included). *)
Theorem derived_state_is_stable (props : Props.t) (state state' : State.t) (st : store) :
  getDerivedStateFromProps props state st = Ok (Some state') →
  truthy (of_optional (State.lastValue state')) = true →
  ∀ st2, getDerivedStateFromProps props state' st2 = Ok (Some state').
Proof.
  intros [_ Hv]%getDerivedStateFromProps_Some Hlast st2.
  unfold getDerivedStateFromProps. rewrite Hlast. simpl.
  destruct state' as [last value']. simpl in *.
  destruct (Props.value props) as [v|l].
  - destruct Hv as (r & -> & ->). done.
  - destruct Hv as (l' & -> & ->). done.
Qed.

(** X14. A multiple selection with a handler reports at most as many
    addresses as were selected, and reports the selection unchanged when
    every selected string is non-empty and its own canonical form. *)
Theorem onChangeMulti_reports (props : Props.t) (addresses : list string) :
  Props.onChangeMulti props = true →
  ∃ l, onChangeMulti props addresses = Ok (Some l) ∧
       (length l ≤ length addresses)%nat ∧
       ((∀ x, x ∈ addresses → x ≠ "" ∧ toAddress (JStr x) = Ok (Some x)) →
        l = addresses).
Proof.
  intros Hh. rewrite onChangeMulti_eq, Hh. eexists. split; [done|].
  split.
  - rewrite length_map.
    etransitivity; [apply filter_length_le|]. by rewrite length_fmap.
  - intros Hfix. induction addresses as [|x l IH]; simpl; [done|].
    destruct (Hfix x) as [Hne Hx]; [by left|].
    assert (Hid : accountId_of x = JStr x).
    { unfold accountId_of, canonical_of. rewrite Hx.
      by rewrite !bool_decide_eq_false_2. }
    rewrite Hid. simpl. rewrite bool_decide_eq_false_2 by done. simpl.
    f_equal. apply IH. intros y Hy. apply Hfix. by right.
Qed.
End Derived.

(** * The further properties on concrete inputs *)

(** X2 at the bucket [alice; bob]. *)
Lemma dedupe_keeps_distinct_keys_witness :
  NoDup (key <$> [alice; bob]) ∧ dedupe [alice; bob] = [alice; bob].
Proof.
  assert (Hnd : NoDup (key <$> [alice; bob])).
  { simpl. repeat constructor; set_solver. }
  split; [done|]. by apply dedupe_keeps_distinct_keys.
Defined.

(** X3 at the filter on "5B1" over [alice; bob]. *)
Lemma include_and_exclude_split_the_bucket_witness :
  getFiltered including_bob = [bob] ∧
  getFiltered excluding_bob = [alice] ∧
  (∀ o, o ∈ getFiltered including_bob → o ∉ getFiltered excluding_bob) ∧
  (alice ∈ getFiltered including_bob ∨ alice ∈ getFiltered excluding_bob).
Proof.
  split; [by vm_compute|]. split; [by vm_compute|].
  destruct (include_and_exclude_split_the_bucket including_bob excluding_bob ["5B1"])
    as [Hdisjoint Hcover]; [done..|].
  split; [done|]. apply Hcover; [|done]. vm_compute. by left.
Defined.

(** X4 at a bucket with a section header. *)
Lemma empty_filter_array_witness :
  Props.filter excluding_nothing = Some [] ∧
  getFiltered excluding_nothing = [alice; bob].
Proof.
  split; [done|].
  destruct (empty_filter_array excluding_nothing) as [_ Hex]; [done|].
  rewrite Hex by done. by vm_compute.
Defined.

(** X5 at the store that remembers "5B1" for "all", writing "5A1" for
    "allPlus". *)
Lemma setLastValue_touches_one_tag_witness :
  well_typed remembers_bob ∧
  ∃ st', setLastValue (Some AllPlus) "5A1" remembers_bob = Ok st' ∧
         getLastValue None st' = Ok (Some "5B1") ∧
         getLastValue (Some AllPlus) st' = Ok (Some "5A1").
Proof.
  assert (Hwt : well_typed remembers_bob) by by eexists.
  split; [done|]. eexists. split; [by vm_compute|].
  destruct (setLastValue_touches_one_tag (Some AllPlus) "5A1" remembers_bob _ Hwt eq_refl)
    as (Hother & Hsame & _).
  split; [by rewrite Hother|by apply Hsame].
Defined.

(** X6 at the selection of "5A1". *)
Lemma onChange_reports_null_or_canonical_witness :
  ∃ st', onChange (H := sample) sample_props None "5A1" = Ok (st', Some (JStr "5A1")) ∧
         (JStr "5A1" = JNull ∨
          ∃ a, JStr "5A1" = JStr a ∧ a ≠ "" ∧ "5A1" ≠ "" ∧
               toAddress (JStr "5A1") = Ok (Some a)).
Proof.
  eexists. split; [by vm_compute|].
  eapply (onChange_reports_null_or_canonical (H := sample) sample_props None).
  by vm_compute.
Defined.

(** X8 at the default value "5C1" under "allPlus", absent from the
    bucket. *)
Lemma active_value_is_rendered_witness :
  Props.options allPlus_default = None ∧
  canonical_of (H := sample) (candidate allPlus_default fresh_state) = JStr "5C1" ∧
  ∃ d, render (H := sample) allPlus_default fresh_state empty_keyring = Ok (Dropdown_of d) ∧
       ∃ o, o ∈ dd_options d ∧ value o = JStr "5C1".
Proof.
  split; [done|]. split; [by vm_compute|].
  eexists. split; [by vm_compute|].
  eapply (active_value_is_rendered (H := sample) allPlus_default fresh_state empty_keyring);
    [done|done|done|by vm_compute|by vm_compute].
Defined.

(** X10 at a query of blanks. *)
Lemma onSearch_blank_query_witness :
  trim "   " = "" ∧
  onSearch (H := sample) sample_props empty_keyring [accounts_header; alice; bob] "   "
  = Ok (empty_keyring, [alice; bob]).
Proof.
  split; [done|].
  by rewrite (onSearch_blank_query (H := sample)).
Defined.


(** X12 and X13 at a value array with an entry that is not resolved, and
    at the store that remembers "5B1". *)
Lemma derived_value_shape_witness :
  ∃ state',
    getDerivedStateFromProps (H := sample) multiple_props fresh_state remembers_bob
    = Ok (Some state') ∧
    State.value state' = ManyAddresses [Some "5A1"; None; Some "5B1"] ∧
    ∃ l', State.value state' = ManyAddresses l' ∧ length l' = 3%nat.
Proof.
  eexists. split; [by vm_compute|]. split; [done|].
  destruct (derived_value_shape (H := sample) multiple_props fresh_state _ remembers_bob eq_refl)
    as (l' & Hl & Hlen & _).
  exists l'. by split.
Defined.

Lemma derived_state_is_stable_witness :
  ∃ state',
    getDerivedStateFromProps (H := sample) sample_props fresh_state remembers_bob
    = Ok (Some state') ∧
    State.lastValue state' = Some "5B1" ∧
    getDerivedStateFromProps (H := sample) sample_props state' malformed_store
    = Ok (Some state').
Proof.
  eexists. split; [by vm_compute|]. split; [done|].
  by apply (derived_state_is_stable (H := sample) sample_props fresh_state _ remembers_bob).
Defined.

(** X14 at the selection ["5A1"; "5B1"]. *)
Lemma onChangeMulti_reports_witness :
  Props.onChangeMulti multiple_props = true ∧
  onChangeMulti (H := sample) multiple_props ["5A1"; "5B1"] = Ok (Some ["5A1"; "5B1"]).
Proof.
  split; [done|].
  destruct (onChangeMulti_reports (H := sample) multiple_props ["5A1"; "5B1"] eq_refl)
    as (l & -> & _ & Hfix).
  rewrite Hfix; [done|].
  intros x Hx. repeat (apply elem_of_cons in Hx as [->|Hx]); try done.
  by apply elem_of_nil in Hx.
Defined.

(** * From one step of the component to the next *)

Section Composition.
Context `{Collaborators}.

(** X15. A scalar value prop that the codec resolves is what the
    selection widget gets as value, and it suppresses the default value:
    the state derived from the props makes [render] hand over the
    resolved address and no default. *)
Theorem resolved_value_suppresses_default
    (props : Props.t) (state state' : State.t) (st : store) (kr : Keyring)
    (v : address_like) (s : string) (d : Dropdown) :
  Props.value props = OneValue v →
  toAddress v = Ok (Some s) →
  s ≠ "" →
  getDerivedStateFromProps props state st = Ok (Some state') →
  render props state' kr = Ok (Dropdown_of d) →
  State.value state' = OneAddress s ∧
  dd_value d = OneAddress s ∧
  dd_defaultValue d = JUndefined.
Proof.
  intros Hv Hs Hne [_ Hval]%getDerivedStateFromProps_Some Hr.
  rewrite Hv in Hval. destruct Hval as (r & Hr' & Hstate).
  rewrite Hs in Hr'. injection Hr' as <-. simpl in Hstate.
  rewrite bool_decide_eq_false_2 in Hstate by done. simpl in Hstate.
  apply render_Dropdown in Hr as ->. simpl. rewrite Hstate. simpl.
  rewrite bool_decide_eq_false_2 by done.
  by rewrite orb_true_r, andb_false_r.
Qed.


(** X17. The search changes the registry only to save an address typed
    in: when the registry after a search differs from the one before,
    input is allowed, no entry matched the query, and the registry is
    the one after saving the non-empty address that the codec returned
    for the trimmed query. *)
Theorem onSearch_saves_only_typed_addresses
    (props : Props.t) (kr kr' : Keyring) (filteredOptions result : list Option)
    (query : string) :
  onSearch props kr filteredOptions query = Ok (kr', result) →
  kr' ≠ kr →
  or_default true (Props.isInput props) = true ∧
  List.filter (is_match (toLowerCase (trim query))) filteredOptions = [] ∧
  ∃ a, a ≠ "" ∧ trim query ≠ "" ∧
       toAddress (JStr (trim query)) = Ok (Some a) ∧
       kr' = (saveRecent a kr).1.
Proof.
  unfold onSearch, search_matches.
  set (matches := List.filter _ filteredOptions).
  destruct (or_default true (Props.isInput props)); simpl; [|by intros [= <- _]].
  destruct matches as [|o l] eqn:Hm; simpl; [|by intros [= <- _]].
  rewrite transformToAccountId_Ok. simpl.
  unfold accountId_of. case_bool_decide as Hq; simpl; [by intros [= <- _]|].
  destruct (canonical_of_cases (JStr (trim query))) as [->|(a & -> & Ha & Hcodec)];
    simpl; [by intros [= <- _]|].
  rewrite bool_decide_eq_false_2 by done. simpl.
  destruct (saveRecent a kr) as [kr2 option] eqn:Hsave. simpl.
  intros [= <- _] _. split; [done|]. split; [done|].
  exists a. by rewrite Hsave.
Qed.
End Composition.

(** X15 at the value prop "5A1". *)
Lemma resolved_value_suppresses_default_witness :
  Props.value selected_alice = OneValue (JStr "5A1") ∧
  toAddress (Collaborators := sample) (JStr "5A1") = Ok (Some "5A1") ∧
  ∃ state' d,
    getDerivedStateFromProps (H := sample) selected_alice fresh_state None
    = Ok (Some state') ∧
    render (H := sample) selected_alice state' empty_keyring = Ok (Dropdown_of d) ∧
    dd_value d = OneAddress "5A1" ∧ dd_defaultValue d = JUndefined.
Proof.
  split; [done|]. split; [done|].
  eexists _, _. split; [by vm_compute|]. split; [by vm_compute|].
  eapply (resolved_value_suppresses_default (H := sample) selected_alice fresh_state _ None
            empty_keyring (JStr "5A1") "5A1"); [done|done|done|by vm_compute|by vm_compute].
Defined.


(** X17 at the query "5C1", which no entry matches. *)
Lemma onSearch_saves_only_typed_addresses_witness :
  ∃ kr' result,
    onSearch (H := sample) sample_props empty_keyring [alice; bob] "5C1" = Ok (kr', result) ∧
    kr' ≠ empty_keyring ∧
    ∃ a, a ≠ "" ∧ toAddress (Collaborators := sample) (JStr (trim "5C1")) = Ok (Some a) ∧
         kr' = (saveRecent (Collaborators := sample) a empty_keyring).1.
Proof.
  eexists _, _. split; [by vm_compute|].
  assert (Hne : (sample_saveRecent "5C1" empty_keyring).1 ≠ empty_keyring).
  { intros Heq. apply (f_equal (fun kr => addresses kr !! "5C1")) in Heq.
    by vm_compute in Heq. }
  split; [exact Hne|].
  destruct (onSearch_saves_only_typed_addresses (H := sample) sample_props empty_keyring
              (sample_saveRecent "5C1" empty_keyring).1 [alice; bob]
              [sample_createOptionItem "5C1" None] "5C1")
    as (_ & _ & a & Ha & _ & Hcodec & Hkr); [by vm_compute|exact Hne|].
  exists a. by split.
Defined.

(** C1 at the bucket [alice; bob] without default value: with no last
    value the active value is the address of the last entry, "5B1", not
    of the first; with the last value "5A1" it is that one. *)
Lemma active_value_precedence_witness :
  hasOptions sample_props = true ∧
  (∃ d, render (H := sample) sample_props fresh_state empty_keyring = Ok (Dropdown_of d) ∧
        dd_defaultValue d = JStr "5B1" ∧
        dd_options d = [alice; bob]) ∧
  (∃ d, render (H := sample) sample_props
          {| State.lastValue := Some "5A1"; State.value := NoValue |} empty_keyring
        = Ok (Dropdown_of d) ∧
        dd_defaultValue d = JStr "5A1").
Proof.
  split; [done|]. split.
  - destruct (active_value_precedence (H := sample) sample_props fresh_state)
      as (_ & _ & _ & _ & _ & Hshown & _).
    destruct (Hshown empty_keyring) as (d & Hr & Hopts & Hdef); [by left|].
    exists d. split; [done|]. split.
    + rewrite Hdef by done. by vm_compute.
    + rewrite Hopts. by vm_compute.
  - destruct (active_value_precedence (H := sample) sample_props
                {| State.lastValue := Some "5A1"; State.value := NoValue |})
      as (_ & _ & _ & _ & _ & Hshown & _).
    destruct (Hshown empty_keyring) as (d & Hr & _ & Hdef); [by left|].
    exists d. split; [done|]. rewrite Hdef by done. by vm_compute.
Defined.

(** C2 fails on stored preferences that are not as the cast in
    [readOptions] declares them: with no filter set and a stored object
    without [defaults], such as [{}], the selection raises before the
    caller's handler is called; with an array as [defaults] the handler
    is called but nothing is persisted. *)
Lemma onChange_needs_a_well_typed_store :
  Props.filter sample_props = None ∧
  Props.onChange sample_props = true ∧
  onChange (H := sample) sample_props malformed_store "5A1" = Throw TypeError ∧
  ∃ st', onChange (H := sample) sample_props (Some {| defaults := ArrayDefaults |}) "5A1"
         = Ok (st', Some (JStr "5A1")) ∧
         getLastValue None st' = Ok None.
Proof.
  split; [done|]. split; [done|]. split; [by vm_compute|].
  eexists. split; by vm_compute.
Qed.
